(** * Command executors and the pipeline runner of [src/executor.py]

    A shallow embedding of the execution stage of the shell: the four
    built-in executors ([echo], [pwd], [cat], [wc]), the external-process
    executor, the dispatcher [processCmd] and the pipeline runner
    [runCommand], followed by the properties of the design document that
    can be stated over them.

    Conventions.
    - A Python [str] is a list of Unicode code points ([N]); [lit] turns a
      literal of the source into such a list.
    - [io.StringIO] is a buffer together with its stream position.
    - What the code reads from the operating system (working directory,
      files, standard input) is a [World]; reading standard input to its
      end and reading a file may leave another world behind; the child
      process started by the external executor is a function taken as a
      section variable.
    - A Python call that may raise returns a [result]; code that reads the
      world runs in the monad [Py]. *)

From Stdlib Require Import String Ascii DecimalString.
From Stdlib Require Import List NArith Arith Lia Bool.
Import ListNotations.
Local Open Scope list_scope.

Set Implicit Arguments.

(** ** Python values used by the module *)

Module Py.

Definition char := N.
Definition str := list char.

(** A literal of the source text (ASCII only). *)
Definition lit (s : string) : str :=
  List.map N_of_ascii (list_ascii_of_string s).

Definition nl : char := 10%N.

(** [a == b] on [str]. *)
Fixpoint str_eqb (a b : str) : bool :=
  match a, b with
  | [], [] => true
  | x :: a', y :: b' => N.eqb x y && str_eqb a' b'
  | _, _ => false
  end.

(** [str.isspace] on one code point: the white-space table of CPython. *)
Definition isspace (c : char) : bool :=
  ((0x09 <=? c) && (c <=? 0x0D))%N
  || ((0x1C <=? c) && (c <=? 0x20))%N
  || (c =? 0x85)%N || (c =? 0xA0)%N || (c =? 0x1680)%N
  || ((0x2000 <=? c) && (c <=? 0x200A))%N
  || (c =? 0x2028)%N || (c =? 0x2029)%N || (c =? 0x202F)%N
  || (c =? 0x205F)%N || (c =? 0x3000)%N.

(** [s.split()]: the maximal runs of characters that are not white space.
    [cur] is the run being read, most recent character first. *)
Fixpoint split_from (cur : str) (s : str) : list str :=
  match s with
  | [] => match cur with [] => [] | _ => [rev cur] end
  | c :: s' =>
      if isspace c
      then match cur with
           | [] => split_from [] s'
           | _ => rev cur :: split_from [] s'
           end
      else split_from (c :: cur) s'
  end.

Definition split (s : str) : list str := split_from [] s.

(** [s.split(sep)] for a one-character separator: the fragments between
    the separators, empty ones included; never the empty list. *)
Fixpoint split_on (sep : char) (s : str) : list str :=
  match s with
  | [] => [[]]
  | c :: s' =>
      if (c =? sep)%N then [] :: split_on sep s'
      else match split_on sep s' with
           | [] => [[c]]
           | f :: fs => (c :: f) :: fs
           end
  end.

(** [xs[:-1]]. *)
Definition but_last {A} (xs : list A) : list A := removelast xs.

(** [s.rstrip()]: [s] without its trailing white space. *)
Fixpoint lstrip (s : str) : str :=
  match s with
  | [] => []
  | c :: s' => if isspace c then lstrip s' else s
  end.

Definition rstrip (s : str) : str := rev (lstrip (rev s)).

(** The lines of a text stream, as [readlines()] and iteration over a file
    object give them: each line keeps its newline, the last one has none
    when the text does not end in one. *)
Fixpoint readlines (s : str) : list str :=
  match s with
  | [] => []
  | c :: s' =>
      if (c =? nl)%N then [c] :: readlines s'
      else match readlines s' with
           | [] => [[c]]
           | l :: ls => (c :: l) :: ls
           end
  end.

(** [f'{n}'] for a non-negative [int]. *)
Definition str_of_nat (n : nat) : str :=
  lit (NilEmpty.string_of_uint (Nat.to_uint n)).

(** *** Exceptions *)

Inductive exn : Type :=
| RuntimeError (msg : str)
| FileNotFoundError (msg : str)
| OtherException (cls msg : str).

Inductive result (A : Type) : Type :=
| Ok (a : A)
| Raise (e : exn).
Arguments Ok {A} a.
Arguments Raise {A} e.

(** *** io.StringIO *)

Record StringIO : Type := mkStringIO { getvalue : str; tell : nat }.

(** [io.StringIO()] *)
Definition StringIO_new : StringIO := mkStringIO [] 0.

(** The buffer after writing [s] at position [pos]: what is there is
    overwritten, a position past the end is reached by padding with NUL. *)
Fixpoint overwrite (pos : nat) (buf s : str) : str :=
  match pos with
  | 0 => s ++ skipn (length s) buf
  | S p =>
      match buf with
      | [] => 0%N :: overwrite p [] s
      | c :: buf' => c :: overwrite p buf' s
      end
  end.

(** [io.write(s)] *)
Definition write (io : StringIO) (s : str) : StringIO :=
  mkStringIO (overwrite (tell io) (getvalue io) s) (tell io + length s).

(** *** The operating system as the module sees it *)

Local Unset Elimination Schemes.

Inductive World : Type := mkWorld {
  (** [os.getcwd()]: the directory, or the exception it raises *)
  getcwd : result str;
  (** [open(filename, 'r')] followed by reading the whole text *)
  read_text : str -> result str;
  (** what is left to read on [sys.stdin] *)
  stdin : str;
  (** the world once the named file has been opened and read to its end,
      where that is not the world before: reading [/dev/stdin], a FIFO or
      a device takes input away *)
  after_read : str -> option World
}.

Local Set Elimination Schemes.

(** Reading [sys.stdin] up to the end of the stream. *)
Definition drain_stdin (w : World) : World :=
  mkWorld (getcwd w) (read_text w) [] (after_read w).

(** The world once the file [filename] has been read. *)
Definition world_after_read (filename : str) (w : World) : World :=
  match after_read w filename with
  | Some w' => w'
  | None => w
  end.

(** Computations that read the world and may raise. *)
Definition Py (A : Type) : Type := World -> result A * World.

Definition ret {A} (a : A) : Py A := fun w => (Ok a, w).
Definition raise {A} (e : exn) : Py A := fun w => (Raise e, w).
Definition bind {A B} (m : Py A) (k : A -> Py B) : Py B :=
  fun w => match m w with
           | (Ok a, w') => k a w'
           | (Raise e, w') => (Raise e, w')
           end.

(** [try: m  except cls as e: h e], the class test being [handles]. *)
Definition try_except {A} (m : Py A) (handles : exn -> bool)
           (h : exn -> Py A) : Py A :=
  fun w => match m w with
           | (Ok a, w') => (Ok a, w')
           | (Raise e, w') => if handles e then h e w' else (Raise e, w')
           end.

Definition is_FileNotFoundError (e : exn) : bool :=
  match e with FileNotFoundError _ => true | _ => false end.

(** [except Exception]: every exception of the model. *)
Definition is_Exception (e : exn) : bool := true.

End Py.

Import Py.

Notation "x <- m ;; k" := (bind m (fun x => k))
  (at level 61, m at next level, right associativity).


(** ** The module [executor.py] *)

(** [CmdIR], the command as the parser hands it over: a name and the
    argument text in one piece. *)
Record CmdIR : Type := mkCmdIR { name : str; args : str }.

(** The subclasses of [CmdExecutor]; each object keeps the name and the
    arguments of the command it was built from. *)
Inductive CmdExecutor : Type :=
| EchoExecutor (cmd : CmdIR)
| PwdExecutor (cmd : CmdIR)
| CatExecutor (cmd : CmdIR)
| WcExecutor (cmd : CmdIR)
| ExternalExecutor (cmd : CmdIR).

(** One invocation [cmd.execute(result)] made by the runner, as a recording
    stub would see it. *)
Record Call : Type := mkCall {
  callee : CmdExecutor;
  given : StringIO;
  returned : result StringIO
}.

(** What a run of the pipeline leaves behind: the stream returned or the
    exception raised, the world afterwards, and the invocations made, in the
    order they were made. *)
Record Run : Type := mkRun {
  outcome : result StringIO;
  after : World;
  calls : list Call
}.

(** [os.getcwd()] *)
Definition os_getcwd : Py str := fun w => (getcwd w, w).

(** [with open(filename, 'r') as f: f.read()]: the text read, the world
    being then the one after the read; an [open] that raises leaves the
    world as it was. *)
Definition open_read (filename : str) : Py str :=
  fun w => match read_text w filename with
           | Ok text => (Ok text, world_after_read filename w)
           | Raise e => (Raise e, w)
           end.

(** [for line in sys.stdin]: the lines still to be read; nothing is left
    afterwards. *)
Definition sys_stdin_lines : Py (list str) :=
  fun w => (Ok (readlines (stdin w)), drain_stdin w).

Section Executor.

(** The child process of [ExternalExecutor]: [popen name args input] is
    [Popen([name, args])] fed [input] on its standard input, up to the
    decoded standard output that [communicate] returns, or the exception
    raised on the way. *)
Variable popen : str -> str -> str -> Py str.

(** *** EchoExecutor *)

Definition EchoExecutor_execute (self : CmdIR) (istream : StringIO)
  : Py StringIO :=
  let ostream := StringIO_new in
  ostream <- try_except (ret (write ostream (args self))) is_Exception
               (fun _ => raise (RuntimeError (lit "echo: check your arguments"))) ;;
  ret ostream.

(** *** PwdExecutor *)

Definition PwdExecutor_execute (self : CmdIR) (istream : StringIO)
  : Py StringIO :=
  let ostream := StringIO_new in
  ostream <- try_except (cwd <- os_getcwd ;; ret (write ostream cwd))
               is_Exception
               (fun _ => raise (RuntimeError (lit "pwd: some bads with pwd"))) ;;
  ret ostream.

(** *** CatExecutor *)

Definition CatExecutor_catFromFile (filename : str) : Py str :=
  try_except (open_read filename) is_FileNotFoundError
    (fun _ => raise (FileNotFoundError
                       (lit "cat: " ++ filename ++ lit ": no such file"))).

Definition CatExecutor_catFromConsole : Py str :=
  lines <- sys_stdin_lines ;;
  ret (fold_left (fun result line => result ++ line) lines []).

Definition CatExecutor_execute (self : CmdIR) (istream : StringIO)
  : Py StringIO :=
  let ostream := StringIO_new in
  let cntArgs := length (split (args self)) in
  realInput <-
    match cntArgs with
    | 1 =>
        let filename := args self in
        CatExecutor_catFromFile filename
    | 0 =>
        let istreamText := getvalue istream in
        match istreamText with
        | [] => text <- CatExecutor_catFromConsole ;; ret (rstrip text)
        | _ :: _ => ret istreamText
        end
    | _ =>
        raise (RuntimeError
                 (lit "cat: cat supports only one file, but given "
                    ++ str_of_nat cntArgs))
    end ;;
  ret (write ostream realInput).

(** *** WcExecutor *)

Definition WcExecutor_wcFromFile (filename : str) : Py (list str) :=
  try_except (text <- open_read filename ;; ret (readlines text))
    is_FileNotFoundError
    (fun _ => raise (FileNotFoundError
                       (lit "wc: " ++ filename ++ lit ": no such file"))).

Definition WcExecutor_wcFromConsole : Py (list str) :=
  lines <- sys_stdin_lines ;;
  ret (fold_left (fun result line => result ++ [line]) lines []).

Definition WcExecutor_wcFromIStream (istream : StringIO) : list str :=
  let splited := split_on nl (getvalue istream) in
  but_last (map (fun s => s ++ [nl]) splited).

(** The branch of [execute] that picks the lines to count. *)
Definition WcExecutor_realInput (self : CmdIR) (istream : StringIO)
  : Py (list str) :=
  let cntArgs := length (split (args self)) in
  let filename := args self in
  match cntArgs with
  | 1 => WcExecutor_wcFromFile filename
  | 0 =>
      let inputText := getvalue istream in
      match inputText with
      | _ :: _ => ret (WcExecutor_wcFromIStream istream)
      | [] => WcExecutor_wcFromConsole
      end
  | _ =>
      raise (RuntimeError
               (lit "wc: wc supports only one file, but given "
                  ++ str_of_nat cntArgs))
  end.

(** The counting loop of [execute]: [(lineCnt, wordCnt, charCnt)]. *)
Definition WcExecutor_count (realInput : list str) : nat * nat * nat :=
  fold_left
    (fun '(lineCnt, wordCnt, charCnt) line =>
       (lineCnt + 1, wordCnt + length (split line), charCnt + length line))
    realInput (0, 0, 0).

Definition WcExecutor_execute (self : CmdIR) (istream : StringIO)
  : Py StringIO :=
  let ostream := StringIO_new in
  let filename := args self in
  realInput <- WcExecutor_realInput self istream ;;
  let '(lineCnt, wordCnt, charCnt) := WcExecutor_count realInput in
  ret (write ostream
         (str_of_nat lineCnt ++ lit " " ++ str_of_nat wordCnt ++ lit " "
            ++ str_of_nat charCnt ++ lit " " ++ filename)).

(** *** ExternalExecutor *)

Definition ExternalExecutor_execute (self : CmdIR) (istream : StringIO)
  : Py StringIO :=
  let ostream := StringIO_new in
  result <- popen (name self) (args self) (getvalue istream) ;;
  ret (write ostream result).

(** *** Dispatch *)

(** The method [execute], resolved on the class of the object. *)
Definition execute (self : CmdExecutor) (istream : StringIO) : Py StringIO :=
  match self with
  | EchoExecutor cmd => EchoExecutor_execute cmd istream
  | PwdExecutor cmd => PwdExecutor_execute cmd istream
  | CatExecutor cmd => CatExecutor_execute cmd istream
  | WcExecutor cmd => WcExecutor_execute cmd istream
  | ExternalExecutor cmd => ExternalExecutor_execute cmd istream
  end.

Definition processCmd (cmd : CmdIR) : CmdExecutor :=
  let name := name cmd in
  if str_eqb name (lit "echo") then EchoExecutor cmd
  else if str_eqb name (lit "pwd") then PwdExecutor cmd
  else if str_eqb name (lit "cat") then CatExecutor cmd
  else if str_eqb name (lit "wc") then WcExecutor cmd
  else ExternalExecutor cmd.

(** The invocations [ks] are what [execute] does, one after the other,
    the first in the world [w], each later one in the world the one before
    it left, the last one leaving the world [w']. *)
Fixpoint executed (ks : list Call) (w w' : World) : Prop :=
  match ks with
  | [] => w' = w
  | c :: rest =>
      exists w1,
        execute (callee c) (given c) w = (returned c, w1) /\
        executed rest w1 w'
  end.

(** *** The pipeline runner *)

(** The [for] loop of [runCommand], [result] being the stream bound to the
    variable of that name when the loop reaches [cmdsExec]. *)
Fixpoint runCommand_loop (cmdsExec : list CmdExecutor) (result : StringIO)
         (w : World) : Run :=
  match cmdsExec with
  | [] => mkRun (Ok result) w []
  | cmd :: rest =>
      let '(r, w') :=
        try_except (execute cmd result) is_Exception (fun e => raise e) w in
      let call := mkCall cmd result r in
      match r with
      | Ok result' =>
          let k := runCommand_loop rest result' w' in
          mkRun (outcome k) (after k) (call :: calls k)
      | Raise e => mkRun (Raise e) w' [call]
      end
  end.

Definition runCommand (cmds : list CmdIR) (w : World) : Run :=
  let result := StringIO_new in
  let cmdsExec := map processCmd cmds in
  let k := runCommand_loop cmdsExec result w in
  match outcome k with
  | Ok result => mkRun (Ok (write result [nl])) (after k) (calls k)
  | Raise e => k
  end.

End Executor.

(** ** The design document's wording, for comparison *)

(** "Stripping exactly one trailing newline": the text without its last
    character when that is a newline, the text itself otherwise. *)
Definition strip_one_newline (s : str) : str :=
  match rev s with
  | c :: r => if (c =? nl)%N then rev r else s
  | [] => s
  end.

(** "With the trailing empty fragment dropped". *)
Definition drop_trailing_empty (fragments : list str) : list str :=
  match rev fragments with
  | [] :: r => rev r
  | _ => fragments
  end.

(** The line sequence of a piped stream as the design document words it:
    the content split on newline, the trailing empty fragment dropped, a
    newline appended to each fragment that is left. *)
Definition wc_lines_of_stream_spec (text : str) : list str :=
  map (fun s => s ++ [nl]) (drop_trailing_empty (split_on nl text)).

(** ** Sample worlds and commands *)

Definition no_such_file : result str :=
  Raise (FileNotFoundError (lit "[Errno 2] No such file or directory")).

(** A world with no file at all and nothing on standard input. *)
Definition bare_world : World :=
  mkWorld (Ok (lit "/home/user")) (fun _ => no_such_file) [] (fun _ => None).

(** [bare_world] with [text] waiting on standard input. *)
Definition world_with_stdin (text : str) : World :=
  mkWorld (Ok (lit "/home/user")) (fun _ => no_such_file) text
    (fun _ => None).

(** [bare_world] with one file [filename] holding [content]. *)
Definition world_with_file (filename content : str) : World :=
  mkWorld (Ok (lit "/home/user"))
    (fun f => if str_eqb f filename then Ok content else no_such_file) []
    (fun _ => None).

(** A machine on which no program can be started. *)
Definition no_program : str -> str -> str -> Py str :=
  fun name _ _ =>
    raise (FileNotFoundError (lit "[Errno 2] No such file or directory")).

(** A machine whose every program copies its input to its output. *)
Definition copy_program : str -> str -> str -> Py str :=
  fun _ _ input => ret input.

(** The command [name args], both given as literals. *)
Definition command (name args : string) : CmdIR :=
  mkCmdIR (lit name) (lit args).

(** [bare_world] after the working directory has been removed. *)
Definition world_without_cwd : World :=
  mkWorld (Raise (FileNotFoundError (lit "[Errno 2] No such file or directory")))
    (fun _ => no_such_file) [] (fun _ => None).

(** [bare_world] with one file [filename] that may not be read. *)
Definition world_with_locked_file (filename : str) : World :=
  mkWorld (Ok (lit "/home/user"))
    (fun f => if str_eqb f filename
              then Raise (OtherException (lit "PermissionError")
                                         (lit "[Errno 13] Permission denied"))
              else no_such_file) [] (fun _ => None).


(** A world whose only file is [/dev/stdin], with standard input at its
    end. *)
Definition world_at_end_of_stdin : World :=
  mkWorld (Ok (lit "/home/user"))
    (fun f => if str_eqb f (lit "/dev/stdin") then Ok [] else no_such_file)
    [] (fun _ => None).

(** A world whose only file is [/dev/stdin], with [text] waiting on
    standard input: reading the file gives that text and leaves standard
    input at its end. *)
Definition world_with_dev_stdin (text : str) : World :=
  mkWorld (Ok (lit "/home/user"))
    (fun f => if str_eqb f (lit "/dev/stdin") then Ok text else no_such_file)
    text
    (fun f => if str_eqb f (lit "/dev/stdin")
              then Some world_at_end_of_stdin else None).


(** ** Facts about the Python values *)

Module PyFacts.

Lemma str_eqb_refl (a : str) : str_eqb a a = true.
Proof.
  induction a as [|c a IH]; simpl; [reflexivity|].
  now rewrite N.eqb_refl, IH.
Qed.

Lemma str_eqb_eq (a b : str) : str_eqb a b = true <-> a = b.
Proof.
  split; [|intros ->; apply str_eqb_refl].
  revert b; induction a as [|x a IH]; intros [|y b]; simpl;
    try discriminate; [reflexivity|].
  intros H; apply andb_true_iff in H as [Hx Hab].
  apply N.eqb_eq in Hx; f_equal; auto.
Qed.

(** Writing at the end of the buffer appends. *)
Lemma overwrite_at_end (buf s : str) :
  overwrite (length buf) buf s = buf ++ s.
Proof.
  induction buf as [|c buf IH]; simpl.
  - now rewrite skipn_nil, app_nil_r.
  - now rewrite IH.
Qed.

Lemma write_new (s : str) :
  write StringIO_new s = mkStringIO s (length s).
Proof.
  unfold write, StringIO_new; simpl.
  now rewrite skipn_nil, app_nil_r.
Qed.

Lemma write_at_end (io : StringIO) (s : str) :
  tell io = length (getvalue io) ->
  getvalue (write io s) = getvalue io ++ s.
Proof.
  intros H; unfold write; simpl; rewrite H; apply overwrite_at_end.
Qed.

(** The lines of a text, put together again, are the text. *)
Lemma concat_readlines (s : str) : concat (readlines s) = s.
Proof.
  induction s as [|c s IH]; simpl; [reflexivity|].
  destruct (c =? nl)%N; simpl; [now rewrite IH|].
  destruct (readlines s) as [|l ls]; simpl in *.
  - now rewrite <- IH.
  - now rewrite <- IH.
Qed.

Lemma fold_left_app_concat (ls : list str) (acc : str) :
  fold_left (fun result line => result ++ line) ls acc = acc ++ concat ls.
Proof.
  revert acc; induction ls as [|l ls IH]; intros acc; simpl.
  - now rewrite app_nil_r.
  - now rewrite IH, app_assoc.
Qed.

Lemma fold_left_append_each {A} (ls acc : list A) :
  fold_left (fun result line => result ++ [line]) ls acc = acc ++ ls.
Proof.
  revert acc; induction ls as [|l ls IH]; intros acc; simpl.
  - now rewrite app_nil_r.
  - now rewrite IH, <- app_assoc.
Qed.

(** [lstrip] removes a prefix of white space and stops at the first
    character that is not white space. *)
Lemma lstrip_spec (s : str) :
  exists t, s = t ++ lstrip s /\ forallb isspace t = true /\
            match lstrip s with
            | [] => True
            | c :: _ => isspace c = false
            end.
Proof.
  induction s as [|c s (t & Hs & Ht & Hc)]; simpl.
  - exists []; auto.
  - destruct (isspace c) eqn:E.
    + exists (c :: t); simpl; rewrite E, Ht; repeat split; auto.
      now rewrite <- Hs.
    + exists []; simpl; auto.
Qed.

(** [rstrip] removes a suffix of white space and leaves a text that does
    not end in white space. *)
Lemma rstrip_spec (s : str) :
  exists t, s = rstrip s ++ t /\ forallb isspace t = true /\
            (forall r c, rstrip s = r ++ [c] -> isspace c = false).
Proof.
  unfold rstrip.
  destruct (lstrip_spec (rev s)) as (t & Hs & Ht & Hc).
  exists (rev t); repeat split.
  - rewrite <- rev_app_distr, <- Hs; symmetry; apply rev_involutive.
  - rewrite forallb_forall in *; intros x Hx; apply Ht.
    now apply in_rev.
  - intros r c Hr.
    apply (f_equal (@rev _)) in Hr.
    rewrite rev_involutive, rev_app_distr in Hr; simpl in Hr.
    now rewrite Hr in Hc.
Qed.

(** A text that does not end in white space is left as it is. *)
Lemma rstrip_fixed (r : str) (c : char) :
  isspace c = false -> rstrip (r ++ [c]) = r ++ [c].
Proof.
  intros H; unfold rstrip.
  rewrite rev_app_distr; simpl; rewrite H.
  change (c :: rev r) with ([c] ++ rev r).
  now rewrite rev_app_distr, rev_involutive.
Qed.

(** The last element of a list that has one does not depend on the
    default. *)
Lemma last_cons_default {A} (x : A) (l : list A) (d d' : A) :
  last (x :: l) d = last (x :: l) d'.
Proof.
  revert x; induction l as [|y l IH]; intros x; [reflexivity|].
  change (last (y :: l) d = last (y :: l) d'); apply IH.
Qed.

Lemma split_on_not_nil (sep : char) (s : str) : split_on sep s <> [].
Proof.
  destruct s as [|c s]; simpl; [discriminate|].
  destruct (c =? sep)%N; [discriminate|].
  destruct (split_on sep s); discriminate.
Qed.

End PyFacts.

Import PyFacts.

(** ** Facts about the executors and the loop of the runner *)

Section ExecutorFacts.

Variable popen : str -> str -> str -> Py str.

(** [try: ... except Exception as e: raise e] changes nothing. *)
Lemma reraise {A} (m : Py A) (w : World) :
  try_except m is_Exception (fun e => raise e) w = m w.
Proof.
  unfold try_except, raise; destruct (m w) as [[a|e] w']; reflexivity.
Qed.

(** One turn of the loop. *)
Lemma runCommand_loop_cons (c : CmdExecutor) (rest : list CmdExecutor)
      (s : StringIO) (w : World) :
  runCommand_loop popen (c :: rest) s w =
  match execute popen c s w with
  | (Ok s', w') =>
      let k := runCommand_loop popen rest s' w' in
      mkRun (outcome k) (after k) (mkCall c s (Ok s') :: calls k)
  | (Raise e, w') => mkRun (Raise e) w' [mkCall c s (Raise e)]
  end.
Proof.
  simpl; rewrite reraise.
  destruct (execute popen c s w) as [[s'|e] w']; reflexivity.
Qed.

Ltac loop_step c s w :=
  rewrite runCommand_loop_cons;
  let s' := fresh "s'" in
  let e := fresh "e" in
  let w' := fresh "w'" in
  let E := fresh "E" in
  destruct (execute popen c s w) as [[s'|e] w'] eqn:E; simpl.

(** A stream built by one [write] on a fresh [StringIO] stands at its end. *)
Lemma written_once_at_end {A} (m : Py A) (f : A -> str) (w w' : World)
      (o : StringIO) :
  (x <- m ;; ret (write StringIO_new (f x))) w = (Ok o, w') ->
  tell o = length (getvalue o).
Proof.
  unfold bind, ret; destruct (m w) as [[a|e] w1]; [|discriminate].
  intros H; injection H as <- _; now rewrite write_new.
Qed.

Lemma execute_at_end (c : CmdExecutor) (s o : StringIO) (w w' : World) :
  execute popen c s w = (Ok o, w') -> tell o = length (getvalue o).
Proof.
  destruct c as [cmd|cmd|cmd|cmd|cmd]; simpl.
  - unfold EchoExecutor_execute, bind, try_except, ret; simpl.
    intros H; injection H as <- _; now rewrite write_new.
  - unfold PwdExecutor_execute, bind, try_except, ret, raise, os_getcwd; simpl.
    destruct (getcwd w); simpl; [|discriminate].
    intros H; injection H as <- _; now rewrite write_new.
  - unfold CatExecutor_execute.
    apply written_once_at_end with (f := fun x => x).
  - unfold WcExecutor_execute.
    intros H.
    apply written_once_at_end with
      (m := WcExecutor_realInput cmd s)
      (f := fun realInput =>
              let '(lineCnt, wordCnt, charCnt) := WcExecutor_count realInput in
              str_of_nat lineCnt ++ lit " " ++ str_of_nat wordCnt ++ lit " "
                ++ str_of_nat charCnt ++ lit " " ++ args cmd)
      (w := w) (w' := w').
    rewrite <- H; unfold bind.
    destruct (WcExecutor_realInput cmd s w) as [[ls|e] w1]; [|reflexivity].
    destruct (WcExecutor_count ls) as [[a b] c]; reflexivity.
  - unfold ExternalExecutor_execute.
    apply written_once_at_end with (f := fun x => x).
Qed.

(** The executors invoked are the first ones of the list, in its order. *)
Lemma loop_callees (cs : list CmdExecutor) (s : StringIO) (w : World) :
  let k := runCommand_loop popen cs s w in
  map callee (calls k) = firstn (length (calls k)) cs.
Proof.
  revert s w; induction cs as [|c cs IH]; intros s w; [reflexivity|].
  loop_step c s w; [|reflexivity].
  f_equal; apply IH.
Qed.

(** The first invocation receives the stream the loop starts from. *)
Lemma loop_first_given (cs : list CmdExecutor) (s : StringIO) (w : World)
      (c : Call) :
  nth_error (calls (runCommand_loop popen cs s w)) 0 = Some c -> given c = s.
Proof.
  destruct cs as [|c0 cs]; [discriminate|].
  loop_step c0 s w; intros H; injection H as <-; reflexivity.
Qed.

(** Every later invocation receives what the one before it returned. *)
Lemma loop_chain (cs : list CmdExecutor) (s : StringIO) (w : World)
      (i : nat) (c c' : Call) :
  let k := runCommand_loop popen cs s w in
  nth_error (calls k) i = Some c ->
  nth_error (calls k) (S i) = Some c' ->
  returned c = Ok (given c').
Proof.
  revert s w i; induction cs as [|c0 cs IH]; intros s w i; cbv zeta.
  - destruct i; discriminate.
  - loop_step c0 s w.
    + destruct i as [|i]; simpl.
      * intros H H'; injection H as <-; simpl.
        now rewrite (loop_first_given _ _ _ H').
      * apply IH.
    + destruct i as [|[|i]]; discriminate.
Qed.

(** A loop that ends well has invoked every executor, and ends with what
    the last one returned (the stream it started from when there is none). *)
Lemma loop_success (cs : list CmdExecutor) (s r : StringIO) (w : World) :
  let k := runCommand_loop popen cs s w in
  outcome k = Ok r ->
  length (calls k) = length cs /\
  last (map returned (calls k)) (Ok s) = Ok r.
Proof.
  revert s w; induction cs as [|c cs IH]; intros s w; cbv zeta.
  - intros H; injection H as <-; auto.
  - loop_step c s w; [|discriminate].
    intros H; destruct (IH _ _ H) as [Hlen Hlast]; split; [now rewrite Hlen|].
    destruct (calls (runCommand_loop popen cs s' w')) as [|c1 l] eqn:Ec.
    + exact Hlast.
    + cbn [map] in *.
      change (last (returned c1 :: map returned l) (Ok s) = Ok r).
      now rewrite (last_cons_default _ _ (Ok s) (Ok s')).
Qed.

(** A loop that raises stops at the invocation that raised. *)
Lemma loop_failure (cs : list CmdExecutor) (s : StringIO) (w : World)
      (e : exn) :
  let k := runCommand_loop popen cs s w in
  outcome k = Raise e ->
  exists pre c, calls k = pre ++ [c] /\ returned c = Raise e.
Proof.
  revert s w; induction cs as [|c cs IH]; intros s w; cbv zeta.
  - discriminate.
  - loop_step c s w.
    + intros H; destruct (IH _ _ H) as (pre & c1 & Hc & Hr).
      exists (mkCall c s (Ok s') :: pre), c1; rewrite Hc; auto.
    + intros H; injection H as <-.
      exists [], (mkCall c s (Raise e0)); auto.
Qed.

(** The stream the loop ends with stands at its end when the one it
    started from does. *)
Lemma loop_at_end (cs : list CmdExecutor) (s r : StringIO) (w : World) :
  tell s = length (getvalue s) ->
  outcome (runCommand_loop popen cs s w) = Ok r ->
  tell r = length (getvalue r).
Proof.
  revert s w; induction cs as [|c cs IH]; intros s w Hs.
  - intros H; injection H as <-; exact Hs.
  - loop_step c s w; [|discriminate].
    apply IH; eapply execute_at_end; eauto.
Qed.

(** The loop over a list put together from two. *)
Lemma loop_app (xs ys : list CmdExecutor) (s : StringIO) (w : World) :
  runCommand_loop popen (xs ++ ys) s w =
  let k1 := runCommand_loop popen xs s w in
  match outcome k1 with
  | Ok s' =>
      let k2 := runCommand_loop popen ys s' (after k1) in
      mkRun (outcome k2) (after k2) (calls k1 ++ calls k2)
  | Raise e => k1
  end.
Proof.
  revert s w; induction xs as [|c xs IH]; intros s w.
  - simpl; destruct (runCommand_loop popen ys s w); reflexivity.
  - rewrite <- app_comm_cons, !runCommand_loop_cons.
    destruct (execute popen c s w) as [[s'|e] w'] eqn:E; simpl; [|reflexivity].
    rewrite IH; simpl.
    destruct (outcome (runCommand_loop popen xs s' w')) eqn:Eo; simpl.
    + reflexivity.
    + rewrite <- Eo.
      destruct (runCommand_loop popen xs s' w'); reflexivity.
Qed.

End ExecutorFacts.

(** ** The pipeline runner *)

Section RunnerFacts.

Variable popen : str -> str -> str -> Py str.

Lemma runCommand_calls (cmds : list CmdIR) (w : World) :
  calls (runCommand popen cmds w) =
  calls (runCommand_loop popen (map processCmd cmds) StringIO_new w).
Proof.
  unfold runCommand.
  destruct (outcome (runCommand_loop popen (map processCmd cmds) StringIO_new w));
    reflexivity.
Qed.

(** A run that ends well is the loop ending well, and one newline written
    on the stream the loop ended with. *)
Lemma runCommand_ok (cmds : list CmdIR) (w : World) (r : StringIO) :
  outcome (runCommand popen cmds w) = Ok r ->
  exists r0,
    outcome (runCommand_loop popen (map processCmd cmds) StringIO_new w) = Ok r0 /\
    r = write r0 [nl] /\ getvalue r = getvalue r0 ++ [nl].
Proof.
  unfold runCommand.
  destruct (outcome (runCommand_loop popen (map processCmd cmds) StringIO_new w))
    as [r0|e] eqn:E; simpl.
  - intros H; injection H as <-.
    exists r0; repeat split.
    apply write_at_end.
    now apply (loop_at_end popen (map processCmd cmds) StringIO_new w).
  - rewrite E; discriminate.
Qed.

(** A run that raises is the loop raising. *)
Lemma runCommand_raise (cmds : list CmdIR) (w : World) (e : exn) :
  outcome (runCommand popen cmds w) = Raise e ->
  outcome (runCommand_loop popen (map processCmd cmds) StringIO_new w) = Raise e.
Proof.
  unfold runCommand.
  destruct (outcome (runCommand_loop popen (map processCmd cmds) StringIO_new w))
    as [r0|e0] eqn:E; simpl; [discriminate|].
  now rewrite E.
Qed.

Lemma runCommand_after (cmds : list CmdIR) (w : World) :
  after (runCommand popen cmds w) =
  after (runCommand_loop popen (map processCmd cmds) StringIO_new w).
Proof.
  unfold runCommand.
  destruct (outcome (runCommand_loop popen (map processCmd cmds) StringIO_new w));
    reflexivity.
Qed.

(** The invocations the loop records are the executions it made, in the
    worlds it went through. *)
Lemma loop_executed (cs : list CmdExecutor) (s : StringIO) (w : World) :
  executed popen (calls (runCommand_loop popen cs s w)) w
           (after (runCommand_loop popen cs s w)).
Proof.
  revert s w; induction cs as [|c cs IH]; intros s w; [reflexivity|].
  rewrite runCommand_loop_cons.
  destruct (execute popen c s w) as [[s'|e] w'] eqn:E; cbn.
  - exists w'; split; [exact E | apply IH].
  - exists w'; split; [exact E | reflexivity].
Qed.

End RunnerFacts.

(** C1. The runner invokes the dispatched executors in the order of the
    list, one after the other: the executors invoked are the first ones of
    the dispatched list; the first invocation receives an empty stream;
    every later invocation receives exactly the stream the invocation
    before it returned, with nothing added in between; and what each
    invocation is recorded to return is what [execute] of that executor
    gives on that stream, in the world the invocation before it left, the
    run leaving the world of the last one. When every stage invoked
    returns, the run succeeds; when the run succeeds every executor has
    been invoked, and the returned stream is the stream returned by the
    last stage with one newline written to it, so that its content is that
    stream's content followed by one newline. When the run raises, the
    exception is the one the last invocation raised. *)
Theorem runCommand_pipes_in_order
        (popen : str -> str -> str -> Py str) (cmds : list CmdIR) (w : World) :
  let k := runCommand popen cmds w in
  map callee (calls k) = firstn (length (calls k)) (map processCmd cmds) /\
  (forall c, nth_error (calls k) 0 = Some c -> given c = StringIO_new) /\
  (forall i c c',
      nth_error (calls k) i = Some c ->
      nth_error (calls k) (S i) = Some c' ->
      returned c = Ok (given c')) /\
  executed popen (calls k) w (after k) /\
  ((forall c, In c (calls k) -> exists o, returned c = Ok o) ->
   exists r, outcome k = Ok r) /\
  (forall r,
      outcome k = Ok r ->
      map callee (calls k) = map processCmd cmds /\
      (calls k = [] -> r = write StringIO_new [nl]) /\
      forall pre c,
        calls k = pre ++ [c] ->
        exists final,
          returned c = Ok final /\
          r = write final [nl] /\
          getvalue r = getvalue final ++ [nl]) /\
  (forall e,
      outcome k = Raise e ->
      exists pre c, calls k = pre ++ [c] /\ returned c = Raise e).
Proof.
  cbv zeta; rewrite runCommand_calls, runCommand_after.
  split; [apply loop_callees|].
  split; [intros c; apply loop_first_given|].
  split; [intros i c c'; apply loop_chain|].
  split; [apply loop_executed|].
  split.
  { intros Hall.
    destruct (outcome (runCommand popen cmds w)) as [r|e] eqn:Eo;
      [now exists r|].
    apply runCommand_raise in Eo.
    destruct (loop_failure _ _ _ _ Eo) as (pre & c & Hc & Hr).
    destruct (Hall c) as [o Ho]; [rewrite Hc; apply in_elt|].
    rewrite Ho in Hr; discriminate. }
  split.
  - intros r Hr.
    destruct (runCommand_ok _ _ _ Hr) as (r0 & H0 & Hw & Hv).
    destruct (loop_success _ _ _ _ H0) as [Hlen Hlast].
    split; [rewrite loop_callees, Hlen; apply firstn_all|].
    split.
    + intros Hnil; rewrite Hnil in Hlast; simpl in Hlast.
      injection Hlast as <-; exact Hw.
    + intros pre c Hc; exists r0.
      rewrite Hc, map_app in Hlast; simpl in Hlast.
      rewrite last_last in Hlast; auto.
  - intros e He; apply runCommand_raise in He.
    apply (loop_failure _ _ _ _ He).
Qed.

(** C1 at the pipeline [echo hi | more | cat] on a machine whose programs
    copy their input. *)
Lemma runCommand_pipes_in_order_witness :
  let k := runCommand copy_program
             [command "echo" "hi"; command "more" ""; command "cat" ""]
             bare_world in
  outcome k = Ok (mkStringIO (lit "hi" ++ [nl]) 3) /\
  map callee (calls k) =
  map processCmd [command "echo" "hi"; command "more" ""; command "cat" ""] /\
  executed copy_program (calls k) bare_world (after k).
Proof.
  destruct (runCommand_pipes_in_order copy_program
              [command "echo" "hi"; command "more" ""; command "cat" ""]
              bare_world) as (_ & _ & _ & Hexec & _ & Hok & _).
  split; [reflexivity|].
  split; [|exact Hexec].
  apply (Hok (mkStringIO (lit "hi" ++ [nl]) 3)); reflexivity.
Defined.

(** C2. When the stages before some stage all succeed and that stage
    raises, the runner raises the very same exception; the invocations made
    are those of the stages up to the failing one and no other; the world
    is left as the failing stage left it; no stream is returned. *)
Theorem runCommand_aborts_on_first_error
        (popen : str -> str -> str -> Py str)
        (pre post : list CmdIR) (c : CmdIR) (w w1 w2 : World)
        (s : StringIO) (ks : list Call) (e : exn) :
  runCommand_loop popen (map processCmd pre) StringIO_new w = mkRun (Ok s) w1 ks ->
  execute popen (processCmd c) s w1 = (Raise e, w2) ->
  let k := runCommand popen (pre ++ c :: post) w in
  outcome k = Raise e /\
  (forall r, outcome k <> Ok r) /\
  after k = w2 /\
  calls k = ks ++ [mkCall (processCmd c) s (Raise e)] /\
  map callee (calls k) = map processCmd (pre ++ [c]).
Proof.
  intros Hpre Hc; cbv zeta.
  assert (Hloop :
            runCommand_loop popen (map processCmd (pre ++ c :: post))
                            StringIO_new w =
            mkRun (Raise e) w2 (ks ++ [mkCall (processCmd c) s (Raise e)])).
  { rewrite map_app, loop_app, Hpre; cbv zeta; cbn [outcome after calls map].
    now rewrite runCommand_loop_cons, Hc. }
  assert (Hrun : runCommand popen (pre ++ c :: post) w =
                 mkRun (Raise e) w2 (ks ++ [mkCall (processCmd c) s (Raise e)])).
  { unfold runCommand; now rewrite Hloop. }
  rewrite Hrun; simpl.
  repeat split; try discriminate.
  rewrite !map_app; simpl; f_equal.
  pose proof (loop_callees popen (map processCmd pre) StringIO_new w) as Hcal.
  pose proof (loop_success popen (map processCmd pre) StringIO_new w (r := s)) as Hs.
  cbv zeta in *; rewrite Hpre in *; simpl in *.
  destruct (Hs eq_refl) as [Hlen _].
  rewrite Hcal, Hlen; apply firstn_all.
Qed.

(** C2 at the pipeline [echo hi | cat a b | wc]: the second stage is given
    two file names. *)
Lemma runCommand_aborts_on_first_error_witness :
  let k := runCommand copy_program
             [command "echo" "hi"; command "cat" "a b"; command "wc" ""] bare_world in
  outcome k =
  Raise (RuntimeError (lit "cat: cat supports only one file, but given 2")) /\
  map callee (calls k) = map processCmd [command "echo" "hi"; command "cat" "a b"].
Proof.
  pose proof (runCommand_aborts_on_first_error copy_program
                [command "echo" "hi"] [command "wc" ""] (command "cat" "a b")
                bare_world (w1 := bare_world) (w2 := bare_world)
                (s := mkStringIO (lit "hi") 2)
                (ks := [mkCall (processCmd (command "echo" "hi")) StringIO_new
                               (Ok (mkStringIO (lit "hi") 2))])
                (e := RuntimeError
                        (lit "cat: cat supports only one file, but given 2"))
                eq_refl eq_refl) as (H1 & _ & _ & _ & H2).
  split; [exact H1 | exact H2].
Defined.

(** C10. The empty pipeline succeeds, invokes nothing, and returns a stream
    whose content is one newline. *)
Theorem runCommand_empty_pipeline
        (popen : str -> str -> str -> Py str) (w : World) :
  runCommand popen [] w = mkRun (Ok (mkStringIO [nl] 1)) w [].
Proof. reflexivity. Qed.

(** ** The built-in executors *)

(** Trailing white space is stripped one character after the other. *)
Lemma rstrip_drops_space (s : str) (x : char) :
  isspace x = true -> rstrip (s ++ [x]) = rstrip s.
Proof.
  intros H; unfold rstrip; rewrite rev_app_distr; simpl; now rewrite H.
Qed.

(** Reading the console for [cat] gives what was left on standard input. *)
Lemma catFromConsole_reads_all (w : World) :
  CatExecutor_catFromConsole w = (Ok (stdin w), drain_stdin w).
Proof.
  unfold CatExecutor_catFromConsole, bind, sys_stdin_lines, ret.
  now rewrite fold_left_app_concat, concat_readlines.
Qed.

(** Reading the console for [wc] gives the lines left on standard input. *)
Lemma wcFromConsole_reads_lines (w : World) :
  WcExecutor_wcFromConsole w = (Ok (readlines (stdin w)), drain_stdin w).
Proof.
  unfold WcExecutor_wcFromConsole, bind, sys_stdin_lines, ret.
  now rewrite fold_left_append_each.
Qed.

(** The three counters after the loop over the lines. *)
Lemma count_from (lines : list str) (l0 w0 c0 : nat) :
  fold_left
    (fun '(lineCnt, wordCnt, charCnt) line =>
       (lineCnt + 1, wordCnt + length (split line), charCnt + length line))
    lines (l0, w0, c0) =
  (l0 + length lines,
   w0 + list_sum (map (fun line => length (split line)) lines),
   c0 + list_sum (map (@length char) lines)).
Proof.
  revert l0 w0 c0; induction lines as [|line lines IH]; intros l0 w0 c0; simpl.
  - now rewrite !Nat.add_0_r.
  - rewrite IH; f_equal; [f_equal|]; lia.
Qed.

Lemma WcExecutor_count_sums (lines : list str) :
  WcExecutor_count lines =
  (length lines,
   list_sum (map (fun line => length (split line)) lines),
   list_sum (map (@length char) lines)).
Proof. unfold WcExecutor_count; now rewrite count_from. Qed.

(** C6. [echo] returns its argument text, character for character, whatever
    the input stream holds and whatever the state of the world; this is so
    for the executor object itself and for the executor the dispatcher
    builds for the name [echo]. *)
Theorem echo_returns_its_argument
        (popen : str -> str -> str -> Py str)
        (nm s : str) (istream : StringIO) (w : World) :
  exists out,
    EchoExecutor_execute (mkCmdIR nm s) istream w = (Ok out, w) /\
    execute popen (processCmd (mkCmdIR (lit "echo") s)) istream w = (Ok out, w) /\
    getvalue out = s /\
    forall (istream' : StringIO) (w' : World),
      EchoExecutor_execute (mkCmdIR nm s) istream' w' = (Ok out, w').
Proof.
  assert (H : forall n i v, EchoExecutor_execute (mkCmdIR n s) i v
                            = (Ok (mkStringIO s (length s)), v)).
  { intros n i v; unfold EchoExecutor_execute, bind, try_except, ret.
    now rewrite write_new. }
  exists (mkStringIO s (length s)).
  split; [apply H|].
  split; [apply (H (lit "echo"))|].
  split; [reflexivity | intros; apply H].
Qed.

(** C7. [cat] without argument tokens, given a stream that is not empty,
    returns the content of that stream unchanged and leaves the world,
    standard input included, as it was. *)
Theorem cat_passes_stream_through
        (self : CmdIR) (istream : StringIO) (w : World) :
  split (args self) = [] ->
  getvalue istream <> [] ->
  CatExecutor_execute self istream w
  = (Ok (mkStringIO (getvalue istream) (length (getvalue istream))), w).
Proof.
  intros Hargs Hin; unfold CatExecutor_execute; rewrite Hargs; simpl.
  destruct (getvalue istream) as [|c t] eqn:E; [contradiction|].
  unfold bind, ret; now rewrite write_new.
Qed.

(** C7 at [cat] fed ["hi"] while ["typed"] waits on standard input. *)
Lemma cat_passes_stream_through_witness :
  CatExecutor_execute (command "cat" "") (mkStringIO (lit "hi") 2)
                      (world_with_stdin (lit "typed"))
  = (Ok (mkStringIO (lit "hi") 2), world_with_stdin (lit "typed")).
Proof.
  apply (cat_passes_stream_through (command "cat" "") (mkStringIO (lit "hi") 2)
           (world_with_stdin (lit "typed"))).
  - reflexivity.
  - discriminate.
Defined.

(** C8. An argument text of two or more tokens makes both [cat] and [wc]
    raise [RuntimeError], which is not [FileNotFoundError], with a message
    that says only one file is supported and ends with the number of tokens
    in decimal; the world is not touched. *)
Theorem too_many_files_raises_RuntimeError
        (self : CmdIR) (istream : StringIO) (w : World) :
  2 <= length (split (args self)) ->
  CatExecutor_execute self istream w
  = (Raise (RuntimeError
              (lit "cat: cat supports only one file, but given "
                 ++ str_of_nat (length (split (args self))))), w) /\
  WcExecutor_execute self istream w
  = (Raise (RuntimeError
              (lit "wc: wc supports only one file, but given "
                 ++ str_of_nat (length (split (args self))))), w) /\
  (forall msg msg', RuntimeError msg <> FileNotFoundError msg').
Proof.
  intros H.
  unfold CatExecutor_execute, WcExecutor_execute, WcExecutor_realInput.
  destruct (length (split (args self))) as [|[|n]]; try lia.
  repeat split; discriminate.
Qed.

(** C8 at the argument text ["a.txt b.txt c.txt"]. *)
Lemma too_many_files_raises_RuntimeError_witness :
  CatExecutor_execute (command "cat" "a.txt b.txt c.txt") StringIO_new bare_world
  = (Raise (RuntimeError
              (lit "cat: cat supports only one file, but given 3")),
     bare_world) /\
  WcExecutor_execute (command "wc" "a.txt b.txt c.txt") StringIO_new bare_world
  = (Raise (RuntimeError
              (lit "wc: wc supports only one file, but given 3")),
     bare_world).
Proof.
  split.
  - apply (too_many_files_raises_RuntimeError
             (command "cat" "a.txt b.txt c.txt") StringIO_new bare_world).
    vm_compute; lia.
  - apply (too_many_files_raises_RuntimeError
             (command "wc" "a.txt b.txt c.txt") StringIO_new bare_world).
    vm_compute; lia.
Defined.

(** C9. When the argument text is one token and opening the file of that
    name fails because there is no such file, both [cat] and [wc] raise
    [FileNotFoundError], which is not [RuntimeError], with a message made
    of the command name, the file name and the words "no such file"; the
    world is not touched. *)
Theorem missing_file_raises_FileNotFoundError
        (self : CmdIR) (istream : StringIO) (w : World) (os_msg : str) :
  length (split (args self)) = 1 ->
  read_text w (args self) = Raise (FileNotFoundError os_msg) ->
  CatExecutor_execute self istream w
  = (Raise (FileNotFoundError
              (lit "cat: " ++ args self ++ lit ": no such file")), w) /\
  WcExecutor_execute self istream w
  = (Raise (FileNotFoundError
              (lit "wc: " ++ args self ++ lit ": no such file")), w) /\
  (forall msg msg', FileNotFoundError msg <> RuntimeError msg').
Proof.
  intros Hone Hmiss.
  unfold CatExecutor_execute, WcExecutor_execute, WcExecutor_realInput.
  rewrite Hone.
  unfold CatExecutor_catFromFile, WcExecutor_wcFromFile, bind, try_except,
    open_read, raise.
  rewrite Hmiss; simpl.
  repeat split; discriminate.
Qed.

(** C9 at the file name ["ghost.txt"] in a world without files. *)
Lemma missing_file_raises_FileNotFoundError_witness :
  CatExecutor_execute (command "cat" "ghost.txt") StringIO_new bare_world
  = (Raise (FileNotFoundError (lit "cat: ghost.txt: no such file")),
     bare_world) /\
  WcExecutor_execute (command "wc" "ghost.txt") StringIO_new bare_world
  = (Raise (FileNotFoundError (lit "wc: ghost.txt: no such file")),
     bare_world).
Proof.
  split.
  - apply (missing_file_raises_FileNotFoundError
             (command "cat" "ghost.txt") StringIO_new bare_world
             (os_msg := lit "[Errno 2] No such file or directory"));
      reflexivity.
  - apply (missing_file_raises_FileNotFoundError
             (command "wc" "ghost.txt") StringIO_new bare_world
             (os_msg := lit "[Errno 2] No such file or directory"));
      reflexivity.
Defined.

(** C4, as the code has it. [cat] without argument tokens and with an empty
    incoming stream reads standard input to its end and returns what it
    read without its trailing white space: what is cut off is white space
    only, and what is returned does not end in white space. When the text
    ends in one newline that follows a character which is not white space,
    that newline alone is removed; so ["line1\nline2\n"] gives
    ["line1\nline2"]. *)
Theorem cat_console_strips_trailing_space
        (self : CmdIR) (istream : StringIO) (w : World) :
  split (args self) = [] ->
  getvalue istream = [] ->
  exists out trailing,
    CatExecutor_execute self istream w = (Ok out, drain_stdin w) /\
    stdin w = getvalue out ++ trailing /\
    forallb isspace trailing = true /\
    (forall r c, getvalue out = r ++ [c] -> isspace c = false) /\
    (forall r c, isspace c = false -> stdin w = r ++ [c] ++ [nl] ->
                 getvalue out = r ++ [c]) /\
    (stdin w = lit "line1" ++ [nl] ++ lit "line2" ++ [nl] ->
     getvalue out = lit "line1" ++ [nl] ++ lit "line2").
Proof.
  intros Hargs Hin.
  destruct (rstrip_spec (stdin w)) as (t & Hs & Ht & Hend).
  exists (mkStringIO (rstrip (stdin w)) (length (rstrip (stdin w)))), t.
  assert (Hone : forall r c, isspace c = false -> stdin w = r ++ [c] ++ [nl] ->
                             rstrip (stdin w) = r ++ [c]).
  { intros r c Hc Hw; rewrite Hw, app_assoc.
    rewrite rstrip_drops_space by reflexivity.
    now apply rstrip_fixed. }
  cbn [getvalue]; repeat split; auto.
  - unfold CatExecutor_execute; rewrite Hargs, Hin; simpl.
    unfold bind at 1 2; rewrite catFromConsole_reads_all.
    unfold ret; now rewrite write_new.
  - intros Hw.
    apply (Hone (lit "line1" ++ [nl] ++ lit "line" ) 50%N); [reflexivity|].
    exact Hw.
Qed.

(** C4 at the standard input ["line1\nline2\n"]. *)
Lemma cat_console_strips_trailing_space_witness :
  exists out trailing,
    CatExecutor_execute (command "cat" "") StringIO_new
      (world_with_stdin (lit "line1" ++ [nl] ++ lit "line2" ++ [nl]))
    = (Ok out, bare_world) /\
    getvalue out = lit "line1" ++ [nl] ++ lit "line2" /\
    forallb isspace trailing = true.
Proof.
  destruct (cat_console_strips_trailing_space
              (command "cat" "") StringIO_new
              (world_with_stdin (lit "line1" ++ [nl] ++ lit "line2" ++ [nl]))
              eq_refl eq_refl)
    as (out & trailing & Hrun & _ & Hsp & _ & _ & Hex).
  exists out, trailing.
  split; [exact Hrun|].
  split; [apply Hex; reflexivity | exact Hsp].
Defined.

(** C4 as the design document words it fails on standard input that ends
    in two newlines: [cat] returns ["a"], while the text with exactly one
    trailing newline removed is ["a\n"]. *)
Lemma cat_console_strips_more_than_one_newline :
  let w := world_with_stdin (lit "a" ++ [nl; nl]) in
  exists out,
    fst (CatExecutor_execute (command "cat" "") StringIO_new w) = Ok out /\
    getvalue out = lit "a" /\
    strip_one_newline (stdin w) = lit "a" ++ [nl] /\
    getvalue out <> strip_one_newline (stdin w).
Proof.
  exists (mkStringIO (lit "a") 1).
  repeat split; discriminate.
Qed.

(** C5, as the code has it. When [wc] succeeds, the lines it counted being
    [lines], its output is the number of lines, the number of white-space
    separated tokens summed over the lines, the number of characters summed
    over the lines (newlines counted), and the argument text exactly as it
    was passed, the four separated by single spaces. The last field is
    empty, the output ending in the separating space, exactly when the
    argument text is empty; an argument text of white space only, which has
    no token either, is printed as it is. For a named file the lines are
    the lines of the file; a file holding ["a b\ncc\n"] gives
    ["2 3 7 <filename>"]. *)
Theorem wc_output_format
        (self : CmdIR) (istream out : StringIO) (w w' : World) :
  WcExecutor_execute self istream w = (Ok out, w') ->
  exists lines,
    WcExecutor_realInput self istream w = (Ok lines, w') /\
    getvalue out =
      str_of_nat (length lines) ++ lit " "
        ++ str_of_nat (list_sum (map (fun line => length (split line)) lines))
        ++ lit " "
        ++ str_of_nat (list_sum (map (@length char) lines))
        ++ lit " " ++ args self /\
    (getvalue out =
       str_of_nat (length lines) ++ lit " "
         ++ str_of_nat (list_sum (map (fun line => length (split line)) lines))
         ++ lit " "
         ++ str_of_nat (list_sum (map (@length char) lines))
         ++ lit " "
     <-> args self = []) /\
    (forall content,
        length (split (args self)) = 1 ->
        read_text w (args self) = Ok content ->
        lines = readlines content) /\
    (length (split (args self)) = 1 ->
     read_text w (args self) = Ok (lit "a b" ++ [nl] ++ lit "cc" ++ [nl]) ->
     getvalue out = lit "2 3 7 " ++ args self).
Proof.
  unfold WcExecutor_execute, bind.
  destruct (WcExecutor_realInput self istream w) as [[lines|e] w1] eqn:Ein;
    [|discriminate].
  rewrite WcExecutor_count_sums; unfold ret; rewrite write_new.
  intros H; injection H as <- <-; cbn [getvalue].
  assert (Hfile : forall content,
             length (split (args self)) = 1 ->
             read_text w (args self) = Ok content ->
             lines = readlines content).
  { intros content Hone Hread.
    unfold WcExecutor_realInput in Ein; rewrite Hone in Ein.
    unfold WcExecutor_wcFromFile, try_except, bind, open_read, ret in Ein.
    rewrite Hread in Ein; now injection Ein as <- _. }
  exists lines.
  split; [reflexivity|].
  split; [reflexivity|].
  split; [|split; [exact Hfile|]].
  - split.
    + intros Heq; apply (f_equal (@length _)) in Heq.
      destruct (args self) as [|c rest]; [reflexivity|].
      change (lit " ") with [32%N] in Heq.
      repeat first [ rewrite length_app in Heq
                   | progress (cbn [app length] in Heq) ].
      lia.
    + intros Hempty; rewrite Hempty; reflexivity.
  - intros Hone Hread; rewrite (Hfile _ Hone Hread); reflexivity.
Qed.

(** C5 at [wc f.txt], the file holding ["a b\ncc\n"]. *)
Lemma wc_output_format_witness :
  let w := world_with_file (lit "f.txt") (lit "a b" ++ [nl] ++ lit "cc" ++ [nl]) in
  WcExecutor_execute (command "wc" "f.txt") StringIO_new w
  = (Ok (mkStringIO (lit "2 3 7 f.txt") 11), w) /\
  getvalue (mkStringIO (lit "2 3 7 f.txt") 11) = lit "2 3 7 " ++ lit "f.txt".
Proof.
  split; [reflexivity|].
  destruct (wc_output_format
              (command "wc" "f.txt") StringIO_new
              (out := mkStringIO (lit "2 3 7 f.txt") 11)
              (world_with_file (lit "f.txt")
                               (lit "a b" ++ [nl] ++ lit "cc" ++ [nl]))
              (w' := world_with_file (lit "f.txt")
                                     (lit "a b" ++ [nl] ++ lit "cc" ++ [nl]))
              eq_refl)
    as (lines & _ & _ & _ & _ & Hex).
  apply Hex; reflexivity.
Defined.

(** C5 as the design document words it fails on an argument text that is
    one space: no file name is given, the argument text having no token,
    and [wc] counts standard input; yet the last field of its output is
    that space, not the empty text. *)
Lemma wc_prints_blank_argument :
  let self := command "wc" " " in
  split (args self) = [] /\
  exists out,
    WcExecutor_execute self StringIO_new bare_world = (Ok out, bare_world) /\
    getvalue out = lit "0 0 0 " ++ lit " " /\
    getvalue out <> lit "0 0 0 " ++ [].
Proof.
  split; [reflexivity|].
  exists (mkStringIO (lit "0 0 0  ") 7).
  repeat split; discriminate.
Qed.

(** ** The lines [wc] takes from a piped stream *)

Lemma split_on_newline_ended (text : str) :
  split_on nl (text ++ [nl]) = split_on nl text ++ [[]].
Proof.
  induction text as [|c text IH]; [reflexivity|].
  simpl; destruct (c =? nl)%N.
  - now rewrite IH.
  - rewrite IH.
    pose proof (split_on_not_nil nl text) as Hne.
    destruct (split_on nl text) as [|f fs]; [contradiction|reflexivity].
Qed.

(** On a stream that ends in a newline the code takes the lines the design
    document describes: every fragment before the last newline, with its
    newline. *)
Lemma wcFromIStream_newline_ended (text : str) (pos : nat) :
  WcExecutor_wcFromIStream (mkStringIO (text ++ [nl]) pos)
  = wc_lines_of_stream_spec (text ++ [nl]) /\
  wc_lines_of_stream_spec (text ++ [nl])
  = map (fun s => s ++ [nl]) (split_on nl text).
Proof.
  unfold WcExecutor_wcFromIStream, wc_lines_of_stream_spec, but_last,
    drop_trailing_empty; cbn [getvalue].
  rewrite split_on_newline_ended, map_app; simpl.
  rewrite removelast_last, rev_app_distr; simpl.
  now rewrite rev_involutive.
Qed.

(** C3, at a stream without a final newline. Of the stream ["hi"] the code
    keeps no line at all, where the design document's wording keeps the line
    ["hi\n"] and line reading of a file keeps ["hi"]; [wc] then reports
    ["0 0 0 "], and so does the pipeline [echo hi | wc]. Of ["a\nb"] the
    code keeps ["a\n"] only. *)
Theorem wcFromIStream_drops_unterminated_line
        (popen : str -> str -> str -> Py str) (w : World) :
  WcExecutor_wcFromIStream (mkStringIO (lit "hi") 2) = [] /\
  wc_lines_of_stream_spec (lit "hi") = [lit "hi" ++ [nl]] /\
  readlines (lit "hi") = [lit "hi"] /\
  WcExecutor_execute (command "wc" "") (mkStringIO (lit "hi") 2) w
  = (Ok (mkStringIO (lit "0 0 0 ") 6), w) /\
  outcome (runCommand popen [command "echo" "hi"; command "wc" ""] w)
  = Ok (mkStringIO (lit "0 0 0 " ++ [nl]) 7) /\
  WcExecutor_wcFromIStream (mkStringIO (lit "a" ++ [nl] ++ lit "b") 3)
  = [lit "a" ++ [nl]] /\
  wc_lines_of_stream_spec (lit "a" ++ [nl] ++ lit "b")
  = [lit "a" ++ [nl]; lit "b" ++ [nl]].
Proof. repeat split. Qed.

(** ** Lines and words of a text *)

(** Splitting a text into words can be done line by line: the words of the
    text read from [cur] on are the words of its first line read from [cur]
    on, followed by the words of the other lines. *)
Lemma split_from_lines (s cur : str) :
  split_from cur s =
  match readlines s with
  | [] => split_from cur []
  | l :: ls => split_from cur l ++ concat (map split ls)
  end.
Proof.
  revert cur; induction s as [|c s IH]; intros cur; [reflexivity|].
  cbn [readlines].
  destruct (c =? nl)%N eqn:Ec.
  - apply N.eqb_eq in Ec; subst c.
    assert (Hrest : split_from [] s = concat (map split (readlines s))).
    { rewrite (IH []); unfold split.
      destruct (readlines s); [reflexivity|]; reflexivity. }
    cbn [split_from]; change (isspace nl) with true; cbv iota.
    destruct cur; cbn [split_from app]; exact Hrest || now rewrite Hrest.
  - cbn [split_from].
    destruct (readlines s) as [|l ls] eqn:El.
    + cbn [split_from].
      destruct (isspace c); [destruct cur|]; now rewrite IH.
    + cbn [split_from].
      destruct (isspace c); [destruct cur|]; rewrite IH; reflexivity.
Qed.

Lemma split_lines (s : str) : split s = concat (map split (readlines s)).
Proof.
  unfold split at 1; rewrite split_from_lines.
  destruct (readlines s); reflexivity.
Qed.

(** The words counted line by line are the words of the text. *)
Lemma words_of_lines (s : str) :
  list_sum (map (fun line => length (split line)) (readlines s))
  = length (split s).
Proof.
  rewrite split_lines, length_concat, map_map; reflexivity.
Qed.

(** The characters counted line by line are the characters of the text. *)
Lemma chars_of_lines (s : str) :
  list_sum (map (@length char) (readlines s)) = length s.
Proof.
  rewrite <- length_concat; now rewrite concat_readlines.
Qed.

Lemma readlines_nil (s : str) : readlines s = [] -> s = [].
Proof.
  destruct s as [|c s]; [reflexivity|]; simpl.
  destruct (c =? nl)%N; [discriminate|].
  destruct (readlines s); discriminate.
Qed.

(** A text has one line for each of its newlines, and one more when it
    does not end in a newline and is not empty. *)
Lemma lines_of_text (s : str) :
  length (readlines s)
  = count_occ N.eq_dec s nl + (if (last s nl =? nl)%N then 0 else 1).
Proof.
  induction s as [|c s IH]; [reflexivity|].
  cbn [readlines count_occ].
  destruct (c =? nl)%N eqn:Ec.
  - apply N.eqb_eq in Ec; subst c.
    destruct (N.eq_dec nl nl) as [_|Hn]; [|contradiction].
    cbn [length]; rewrite IH.
    destruct s; reflexivity.
  - destruct (N.eq_dec c nl) as [He|_];
      [apply N.eqb_neq in Ec; contradiction|].
    destruct (readlines s) as [|l ls] eqn:El.
    + apply readlines_nil in El; subst s; simpl; now rewrite Ec.
    + cbn [length] in *; rewrite IH.
      destruct s; [discriminate|reflexivity].
Qed.

(** The counters of [wc] over the lines of a text, in terms of the text. *)
Lemma WcExecutor_count_text (content : str) :
  WcExecutor_count (readlines content)
  = (count_occ N.eq_dec content nl
       + (if (last content nl =? nl)%N then 0 else 1),
     length (split content),
     length content).
Proof.
  now rewrite WcExecutor_count_sums, lines_of_text, words_of_lines,
    chars_of_lines.
Qed.

(** ** Further properties of the dispatcher and the executors *)

(** X1. The dispatcher selects on the exact name and on nothing else: a
    command gets the executor of a built-in exactly when its name is that
    built-in's name, character for character, and the external executor
    exactly when its name is none of the four; whichever executor is built,
    it is built around the command itself. *)
Theorem processCmd_dispatch (cmd : CmdIR) :
  (processCmd cmd = EchoExecutor cmd <-> name cmd = lit "echo") /\
  (processCmd cmd = PwdExecutor cmd <-> name cmd = lit "pwd") /\
  (processCmd cmd = CatExecutor cmd <-> name cmd = lit "cat") /\
  (processCmd cmd = WcExecutor cmd <-> name cmd = lit "wc") /\
  (processCmd cmd = ExternalExecutor cmd <->
   name cmd <> lit "echo" /\ name cmd <> lit "pwd" /\
   name cmd <> lit "cat" /\ name cmd <> lit "wc").
Proof.
  unfold processCmd.
  destruct (str_eqb (name cmd) (lit "echo")) eqn:E1.
  { apply str_eqb_eq in E1; rewrite E1.
    repeat split; try discriminate; try reflexivity;
      intros H; try discriminate; destruct H as (H & _); now elim H. }
  destruct (str_eqb (name cmd) (lit "pwd")) eqn:E2.
  { apply str_eqb_eq in E2; rewrite E2.
    repeat split; try discriminate; try reflexivity;
      intros H; try discriminate; destruct H as (_ & H & _); now elim H. }
  destruct (str_eqb (name cmd) (lit "cat")) eqn:E3.
  { apply str_eqb_eq in E3; rewrite E3.
    repeat split; try discriminate; try reflexivity;
      intros H; try discriminate; destruct H as (_ & _ & H & _); now elim H. }
  destruct (str_eqb (name cmd) (lit "wc")) eqn:E4.
  { apply str_eqb_eq in E4; rewrite E4.
    repeat split; try discriminate; try reflexivity;
      intros H; try discriminate; destruct H as (_ & _ & _ & H); now elim H. }
  assert (N1 : name cmd <> lit "echo")
    by (intros H; apply str_eqb_eq in H; congruence).
  assert (N2 : name cmd <> lit "pwd")
    by (intros H; apply str_eqb_eq in H; congruence).
  assert (N3 : name cmd <> lit "cat")
    by (intros H; apply str_eqb_eq in H; congruence).
  assert (N4 : name cmd <> lit "wc")
    by (intros H; apply str_eqb_eq in H; congruence).
  repeat split; auto; try discriminate; intros H; contradiction.
Qed.

(** X1 at the names [Echo] and [ls]: neither is a built-in. *)
Lemma processCmd_dispatch_witness :
  processCmd (command "Echo" "hi") = ExternalExecutor (command "Echo" "hi") /\
  processCmd (command "ls" "-l") = ExternalExecutor (command "ls" "-l").
Proof.
  split.
  - apply (processCmd_dispatch (command "Echo" "hi")).
    repeat split; discriminate.
  - apply (processCmd_dispatch (command "ls" "-l")).
    repeat split; discriminate.
Defined.

(** X2. [pwd] returns the working directory as the system reports it,
    whatever its arguments and its input stream; when the system cannot
    report it, whatever exception that raises is replaced by the
    [RuntimeError] of [pwd]. The world is not touched. *)
Theorem pwd_reports_cwd (self : CmdIR) (istream : StringIO) (w : World) :
  (forall dir,
      getcwd w = Ok dir ->
      PwdExecutor_execute self istream w
      = (Ok (mkStringIO dir (length dir)), w)) /\
  (forall e,
      getcwd w = Raise e ->
      PwdExecutor_execute self istream w
      = (Raise (RuntimeError (lit "pwd: some bads with pwd")), w)).
Proof.
  unfold PwdExecutor_execute, bind, try_except, os_getcwd, ret, raise.
  split.
  - intros dir H; rewrite H; now rewrite write_new.
  - intros e H; now rewrite H.
Qed.

(** X2 in a world with a working directory and in one without. *)
Lemma pwd_reports_cwd_witness :
  PwdExecutor_execute (command "pwd" "ignored") (mkStringIO (lit "piped") 5)
                      bare_world
  = (Ok (mkStringIO (lit "/home/user") 10), bare_world) /\
  PwdExecutor_execute (command "pwd" "") StringIO_new world_without_cwd
  = (Raise (RuntimeError (lit "pwd: some bads with pwd")), world_without_cwd).
Proof.
  split.
  - apply (pwd_reports_cwd (command "pwd" "ignored")
             (mkStringIO (lit "piped") 5) bare_world); reflexivity.
  - apply (pwd_reports_cwd (command "pwd" "") StringIO_new world_without_cwd)
      with (e := FileNotFoundError (lit "[Errno 2] No such file or directory")).
    reflexivity.
Defined.



(** X4. When opening the named file fails with an exception other than
    [FileNotFoundError], [cat] and [wc] let that exception through as it
    is: only a missing file is reported in the command's own words. *)
Theorem open_error_propagates
        (self : CmdIR) (istream : StringIO) (w : World) (e : exn) :
  length (split (args self)) = 1 ->
  read_text w (args self) = Raise e ->
  is_FileNotFoundError e = false ->
  CatExecutor_execute self istream w = (Raise e, w) /\
  WcExecutor_execute self istream w = (Raise e, w).
Proof.
  intros Hone Hread He.
  unfold CatExecutor_execute, WcExecutor_execute, WcExecutor_realInput.
  rewrite Hone.
  unfold CatExecutor_catFromFile, WcExecutor_wcFromFile, bind, try_except,
    open_read, raise.
  rewrite Hread; cbv iota beta; rewrite He; split; reflexivity.
Qed.

(** X4 at a file that may not be read. *)
Lemma open_error_propagates_witness :
  let e := OtherException (lit "PermissionError")
                          (lit "[Errno 13] Permission denied") in
  let w := world_with_locked_file (lit "secret") in
  CatExecutor_execute (command "cat" "secret") StringIO_new w = (Raise e, w) /\
  WcExecutor_execute (command "wc" "secret") StringIO_new w = (Raise e, w).
Proof.
  split.
  - apply (open_error_propagates (command "cat" "secret") StringIO_new
             (world_with_locked_file (lit "secret"))); reflexivity.
  - apply (open_error_propagates (command "wc" "secret") StringIO_new
             (world_with_locked_file (lit "secret"))); reflexivity.
Defined.

(** X5. [wc] with one argument token reports, for the text of the file of
    that name: one line for each newline, and one more for a last line
    without newline; the number of white-space separated words of the whole
    text; the number of characters of the whole text; then the argument
    text. The incoming stream plays no part, and the world is then the one
    reading that file leaves. *)
Theorem wc_file_counts_whole_text
        (self : CmdIR) (istream : StringIO) (w : World) (content : str) :
  length (split (args self)) = 1 ->
  read_text w (args self) = Ok content ->
  exists out,
    WcExecutor_execute self istream w
    = (Ok out, world_after_read (args self) w) /\
    getvalue out =
      str_of_nat (count_occ N.eq_dec content nl
                    + (if (last content nl =? nl)%N then 0 else 1))
        ++ lit " " ++ str_of_nat (length (split content))
        ++ lit " " ++ str_of_nat (length content)
        ++ lit " " ++ args self.
Proof.
  intros Hone Hread.
  unfold WcExecutor_execute, WcExecutor_realInput; rewrite Hone.
  unfold WcExecutor_wcFromFile, bind, try_except, open_read, ret.
  rewrite Hread; cbv iota beta.
  rewrite WcExecutor_count_text, write_new.
  eexists; split; reflexivity.
Qed.

(** X5 at a file whose last line has no newline, and at [/dev/stdin]. *)
Lemma wc_file_counts_whole_text_witness :
  (let w := world_with_file (lit "f.txt") (lit "a b" ++ [nl] ++ lit "cc") in
   exists out,
     WcExecutor_execute (command "wc" "f.txt") StringIO_new w = (Ok out, w) /\
     getvalue out = lit "2 3 6 f.txt") /\
  (let w := world_with_dev_stdin (lit "a b" ++ [nl]) in
   exists out,
     WcExecutor_execute (command "wc" "/dev/stdin") StringIO_new w
     = (Ok out, world_at_end_of_stdin) /\
     getvalue out = lit "1 2 4 /dev/stdin").
Proof.
  split.
  - destruct (wc_file_counts_whole_text
                (command "wc" "f.txt") StringIO_new
                (world_with_file (lit "f.txt") (lit "a b" ++ [nl] ++ lit "cc"))
                (content := lit "a b" ++ [nl] ++ lit "cc")
                eq_refl eq_refl) as (out & Hrun & Hout).
    exists out; split; [exact Hrun | exact Hout].
  - destruct (wc_file_counts_whole_text
                (command "wc" "/dev/stdin") StringIO_new
                (world_with_dev_stdin (lit "a b" ++ [nl]))
                (content := lit "a b" ++ [nl])
                eq_refl eq_refl) as (out & Hrun & Hout).
    exists out; split; [exact Hrun | exact Hout].
Defined.

(** X6. [wc] without argument tokens and with an empty incoming stream
    counts what is waiting on standard input, in the same way as the text
    of a file, and leaves nothing to read there. *)
Theorem wc_console_counts_stdin
        (self : CmdIR) (istream : StringIO) (w : World) :
  split (args self) = [] ->
  getvalue istream = [] ->
  exists out,
    WcExecutor_execute self istream w = (Ok out, drain_stdin w) /\
    getvalue out =
      str_of_nat (count_occ N.eq_dec (stdin w) nl
                    + (if (last (stdin w) nl =? nl)%N then 0 else 1))
        ++ lit " " ++ str_of_nat (length (split (stdin w)))
        ++ lit " " ++ str_of_nat (length (stdin w))
        ++ lit " " ++ args self.
Proof.
  intros Hargs Hin.
  unfold WcExecutor_execute, WcExecutor_realInput; rewrite Hargs, Hin.
  cbn [length]; unfold bind; rewrite wcFromConsole_reads_lines.
  rewrite WcExecutor_count_text; unfold ret; rewrite write_new.
  eexists; split; reflexivity.
Qed.

(** X6 at two lines typed on the console. *)
Lemma wc_console_counts_stdin_witness :
  exists out,
    WcExecutor_execute (command "wc" "") StringIO_new
      (world_with_stdin (lit "one two" ++ [nl] ++ lit "three" ++ [nl]))
    = (Ok out, bare_world) /\
    getvalue out = lit "2 3 14 ".
Proof.
  destruct (wc_console_counts_stdin
              (command "wc" "") StringIO_new
              (world_with_stdin (lit "one two" ++ [nl] ++ lit "three" ++ [nl]))
              eq_refl eq_refl) as (out & Hrun & Hout).
  exists out; split; [exact Hrun | exact Hout].
Defined.

(** ** [wc] on a piped stream *)

Lemma split_on_app_sep (sep : char) (a b : str) :
  split_on sep (a ++ sep :: b) = split_on sep a ++ split_on sep b.
Proof.
  induction a as [|c a IH]; simpl.
  - now rewrite N.eqb_refl.
  - destruct (c =? sep)%N; rewrite IH; [reflexivity|].
    pose proof (split_on_not_nil sep a) as Hne.
    destruct (split_on sep a); [contradiction|reflexivity].
Qed.

Lemma split_on_no_sep (sep : char) (u : str) :
  ~ In sep u -> split_on sep u = [u].
Proof.
  induction u as [|c u IH]; intros Hu; [reflexivity|]; simpl.
  destruct (c =? sep)%N eqn:Ec.
  - apply N.eqb_eq in Ec; subst c; elim Hu; now left.
  - rewrite IH; [reflexivity|]; intros H; apply Hu; now right.
Qed.

(** The fragments before the newlines of a text, each with its newline,
    are the lines of the text up to its last newline. *)
Lemma fragments_are_lines (t : str) :
  map (fun s => s ++ [nl]) (split_on nl t) = readlines (t ++ [nl]).
Proof.
  induction t as [|c t IH]; [reflexivity|].
  cbn [split_on readlines app].
  destruct (c =? nl)%N eqn:Ec.
  - apply N.eqb_eq in Ec; subst c; cbn [map app]; now rewrite IH.
  - rewrite <- IH.
    pose proof (split_on_not_nil nl t) as Hne.
    destruct (split_on nl t); [contradiction|reflexivity].
Qed.

(** The lines taken from a stream are the lines of its content up to the
    last newline; what follows the last newline gives no line. *)
Lemma wcFromIStream_lines (t u : str) (pos : nat) :
  ~ In nl u ->
  WcExecutor_wcFromIStream (mkStringIO (t ++ nl :: u) pos)
  = readlines (t ++ [nl]) /\
  WcExecutor_wcFromIStream (mkStringIO u pos) = [].
Proof.
  intros Hu; unfold WcExecutor_wcFromIStream, but_last; cbn [getvalue].
  rewrite split_on_app_sep, (@split_on_no_sep nl u Hu), map_app.
  cbn [map]; rewrite removelast_last; split; [apply fragments_are_lines|].
  reflexivity.
Qed.

(** X7. [wc] without argument tokens, given a stream that ends in a
    newline, reports the counts it would report for a file holding the
    content of the stream: one line for each newline, the words and the
    characters of the whole content; the last field is the argument text.
    The world, standard input included, is left alone. *)
Theorem wc_stream_counts_whole_text
        (self : CmdIR) (t : str) (pos : nat) (w : World) :
  split (args self) = [] ->
  exists out,
    WcExecutor_execute self (mkStringIO (t ++ [nl]) pos) w = (Ok out, w) /\
    getvalue out =
      str_of_nat (count_occ N.eq_dec (t ++ [nl]) nl)
        ++ lit " " ++ str_of_nat (length (split (t ++ [nl])))
        ++ lit " " ++ str_of_nat (length (t ++ [nl]))
        ++ lit " " ++ args self.
Proof.
  intros Hargs.
  destruct (@wcFromIStream_lines t [] pos) as [Hlines _]; [intros []|].
  unfold WcExecutor_execute, WcExecutor_realInput; rewrite Hargs.
  cbn [length getvalue].
  destruct (t ++ [nl]) as [|c text] eqn:Et; [now destruct t|].
  unfold bind, ret; rewrite Hlines, WcExecutor_count_text, write_new.
  eexists; split; [reflexivity|]; cbn [getvalue].
  rewrite <- Et, last_last, N.eqb_refl, Nat.add_0_r; reflexivity.
Qed.

(** X7 at the stream ["one two\nthree\n"]. *)
Lemma wc_stream_counts_whole_text_witness :
  exists out,
    WcExecutor_execute (command "wc" "")
      (mkStringIO (lit "one two" ++ [nl] ++ lit "three" ++ [nl]) 14)
      (world_with_stdin (lit "typed"))
    = (Ok out, world_with_stdin (lit "typed")) /\
    getvalue out = lit "2 3 14 ".
Proof.
  destruct (wc_stream_counts_whole_text
              (command "wc" "") (lit "one two" ++ [nl] ++ lit "three") 14
              (world_with_stdin (lit "typed")) eq_refl)
    as (out & Hrun & Hout).
  exists out; split; [exact Hrun | exact Hout].
Defined.

(** X8. [wc] without argument tokens counts a piped stream up to its last
    newline only: the counts for a stream [t ++ "\n" ++ u], where [u] holds
    no newline, are those for [t ++ "\n"], whatever [u] is. *)
Theorem wc_stream_counts_to_last_newline
        (self : CmdIR) (t u : str) (pos pos' : nat) (w : World) :
  split (args self) = [] ->
  ~ In nl u ->
  WcExecutor_execute self (mkStringIO (t ++ nl :: u) pos) w
  = WcExecutor_execute self (mkStringIO (t ++ [nl]) pos') w.
Proof.
  intros Hargs Hu.
  destruct (@wcFromIStream_lines t u pos Hu) as [Hlines _].
  destruct (@wcFromIStream_lines t [] pos') as [Hlines' _]; [intros []|].
  unfold WcExecutor_execute, WcExecutor_realInput; rewrite Hargs.
  cbn [length getvalue].
  destruct (t ++ nl :: u) as [|c text] eqn:Et; [now destruct t|].
  destruct (t ++ [nl]) as [|c' text'] eqn:Et'; [now destruct t|].
  unfold bind, ret; now rewrite Hlines, Hlines'.
Qed.

(** X8 at the streams ["a b\ncc"] and ["a b\n"]. *)
Lemma wc_stream_counts_to_last_newline_witness :
  WcExecutor_execute (command "wc" "")
    (mkStringIO (lit "a b" ++ nl :: lit "cc") 6) bare_world
  = (Ok (mkStringIO (lit "1 2 4 ") 6), bare_world).
Proof.
  rewrite (wc_stream_counts_to_last_newline
             (command "wc" "") (lit "a b") (lit "cc") 6 4 bare_world
             eq_refl).
  - reflexivity.
  - vm_compute; intros [H|[H|[]]]; discriminate.
Defined.

(** ** What the built-in executors do to the world *)



(** ** Further properties of the pipeline runner *)

Section RunnerMore.

Variable popen : str -> str -> str -> Py str.

(** A loop that raises has seen every invocation before the last return. *)
Lemma loop_failure_earlier (cs : list CmdExecutor) (s : StringIO) (w : World)
      (e : exn) :
  outcome (runCommand_loop popen cs s w) = Raise e ->
  exists pre c,
    calls (runCommand_loop popen cs s w) = pre ++ [c] /\
    returned c = Raise e /\
    forall c', In c' pre -> exists o, returned c' = Ok o.
Proof.
  revert s w; induction cs as [|c cs IH]; intros s w; [discriminate|].
  rewrite runCommand_loop_cons.
  destruct (execute popen c s w) as [[s'|e0] w'] eqn:E; simpl.
  - intros H; destruct (IH _ _ H) as (pre & c1 & Hc & Hr & Hpre).
    exists (mkCall c s (Ok s') :: pre), c1; rewrite Hc.
    repeat split; auto.
    intros c' [<-|Hin]; [now exists s' | now apply Hpre].
  - intros H; injection H as <-.
    exists [], (mkCall c s (Raise e0)); repeat split; intros c' [].
Qed.

(** A loop that raises splits its commands at the one that raised: the
    loop over the commands before it ends well, and [execute] of that
    command on the stream and in the world so reached raises the exception
    and leaves the world the loop ends in. *)
Lemma loop_failure_origin (cmds : list CmdIR) (s : StringIO) (w : World)
      (e : exn) :
  outcome (runCommand_loop popen (map processCmd cmds) s w) = Raise e ->
  exists pre c post s1 w1 ks,
    cmds = pre ++ c :: post /\
    runCommand_loop popen (map processCmd pre) s w = mkRun (Ok s1) w1 ks /\
    execute popen (processCmd c) s1 w1
    = (Raise e, after (runCommand_loop popen (map processCmd cmds) s w)) /\
    calls (runCommand_loop popen (map processCmd cmds) s w)
    = ks ++ [mkCall (processCmd c) s1 (Raise e)].
Proof.
  revert s w; induction cmds as [|c0 cmds IH]; intros s w; [discriminate|].
  cbn [map]; rewrite runCommand_loop_cons.
  destruct (execute popen (processCmd c0) s w) as [[s'|e0] w'] eqn:E; simpl.
  - intros H.
    destruct (IH _ _ H) as (pre & c & post & s1 & w1 & ks & -> & Hpre & Hc & Hk).
    exists (c0 :: pre), c, post, s1, w1, (mkCall (processCmd c0) s (Ok s') :: ks).
    repeat split; auto.
    + cbn [map]; rewrite runCommand_loop_cons, E, Hpre; reflexivity.
    + now rewrite Hk.
  - intros H; injection H as <-.
    exists [], c0, cmds, s, w, []; repeat split; auto.
Qed.

(** Every stream returned inside the loop stands at its end. *)
Lemma loop_calls_at_end (cs : list CmdExecutor) (s : StringIO) (w : World)
      (c : Call) (o : StringIO) :
  In c (calls (runCommand_loop popen cs s w)) ->
  returned c = Ok o ->
  tell o = length (getvalue o).
Proof.
  revert s w; induction cs as [|c0 cs IH]; intros s w; [intros []|].
  rewrite runCommand_loop_cons.
  destruct (execute popen c0 s w) as [[s'|e0] w'] eqn:E; simpl.
  - intros [<-|Hin] Hr; [|now apply (IH s' w')].
    injection Hr as <-; eapply execute_at_end; eauto.
  - intros [<-|[]]; discriminate.
Qed.

(** The run, given how its loop ended well. *)
Lemma runCommand_of_loop (cmds : list CmdIR) (w w' : World) (r0 : StringIO)
      (ks : list Call) :
  runCommand_loop popen (map processCmd cmds) StringIO_new w
  = mkRun (Ok r0) w' ks ->
  tell r0 = length (getvalue r0) ->
  exists r,
    runCommand popen cmds w = mkRun (Ok r) w' ks /\
    getvalue r = getvalue r0 ++ [nl].
Proof.
  intros Hloop Hend; unfold runCommand; rewrite Hloop; simpl.
  eexists; split; [reflexivity|]; now apply write_at_end.
Qed.

(** A stream that stands at its end is the stream built by writing its
    content on a fresh one. *)
Lemma at_end_eta (s : StringIO) :
  tell s = length (getvalue s) ->
  mkStringIO (getvalue s) (length (getvalue s)) = s.
Proof. destruct s as [v p]; simpl; now intros ->. Qed.

End RunnerMore.

(** X10. A pipeline whose beginning raises is decided by that beginning:
    whatever commands follow, the run is the same in every respect, the
    exception, the world left behind and the invocations made. *)
Theorem runCommand_failing_prefix
        (popen : str -> str -> str -> Py str)
        (pre post : list CmdIR) (w : World) (e : exn) :
  outcome (runCommand popen pre w) = Raise e ->
  runCommand popen (pre ++ post) w = runCommand popen pre w.
Proof.
  intros H; apply runCommand_raise in H.
  unfold runCommand; rewrite map_app, loop_app; cbv zeta.
  rewrite H; cbv iota; now rewrite H.
Qed.

(** X10 at [cat a b], followed by [echo hi] or not. *)
Lemma runCommand_failing_prefix_witness :
  runCommand copy_program [command "cat" "a b"; command "echo" "hi"] bare_world
  = runCommand copy_program [command "cat" "a b"] bare_world.
Proof.
  exact (runCommand_failing_prefix copy_program
           [command "cat" "a b"] [command "echo" "hi"] bare_world
           (e := RuntimeError
                   (lit "cat: cat supports only one file, but given 2"))
           eq_refl).
Defined.

(** X11. The runner raises nothing of its own: when a run raises, the
    commands split at one whose [execute], on the stream and in the world
    reached by the loop over the commands before it, raises that very
    exception and leaves the world the run leaves. The invocations made are
    those of the commands before it, each of which returned a stream and
    each of which is what [execute] does, followed by the one that raised;
    they are no more than there are commands. *)
Theorem runCommand_error_origin
        (popen : str -> str -> str -> Py str)
        (cmds : list CmdIR) (w : World) (e : exn) :
  outcome (runCommand popen cmds w) = Raise e ->
  exists pre c post s w1 ks,
    cmds = pre ++ c :: post /\
    runCommand_loop popen (map processCmd pre) StringIO_new w
    = mkRun (Ok s) w1 ks /\
    execute popen (processCmd c) s w1
    = (Raise e, after (runCommand popen cmds w)) /\
    calls (runCommand popen cmds w)
    = ks ++ [mkCall (processCmd c) s (Raise e)] /\
    executed popen ks w w1 /\
    (forall c', In c' ks -> exists o, returned c' = Ok o) /\
    length (calls (runCommand popen cmds w)) <= length cmds.
Proof.
  intros H; apply runCommand_raise in H.
  rewrite runCommand_calls, runCommand_after.
  destruct (loop_failure_origin _ _ _ _ H)
    as (pre & c & post & s & w1 & ks & Hcmds & Hpre & Hc & Hk).
  exists pre, c, post, s, w1, ks.
  split; [exact Hcmds|].
  split; [exact Hpre|].
  split; [exact Hc|].
  split; [exact Hk|].
  split.
  { pose proof (loop_executed popen (map processCmd pre) StringIO_new w) as Hx.
    now rewrite Hpre in Hx. }
  split.
  { destruct (loop_failure_earlier _ _ _ _ H) as (pre' & c1 & Hc1 & _ & Hok).
    rewrite Hk in Hc1; apply app_inj_tail in Hc1 as [-> _]; exact Hok. }
  destruct (loop_success popen (map processCmd pre) StringIO_new w (r := s))
    as [Hlen _]; [now rewrite Hpre|].
  rewrite Hpre in Hlen; cbn [calls] in Hlen.
  rewrite Hk, Hcmds, !length_app, Hlen, length_map; cbn [length]; lia.
Qed.

(** X11 at [echo hi | nosuchprogram | wc] on a machine on which no program
    can be started. *)
Lemma runCommand_error_origin_witness :
  let k := runCommand no_program
             [command "echo" "hi"; command "nosuchprogram" ""; command "wc" ""]
             bare_world in
  exists pre c post s w1 ks,
    [command "echo" "hi"; command "nosuchprogram" ""; command "wc" ""]
    = pre ++ c :: post /\
    execute no_program (processCmd c) s w1
    = (Raise (FileNotFoundError (lit "[Errno 2] No such file or directory")),
       after k) /\
    calls k
    = ks ++ [mkCall (processCmd c) s
                    (Raise (FileNotFoundError
                              (lit "[Errno 2] No such file or directory")))] /\
    length (calls k) <= 3.
Proof.
  destruct (runCommand_error_origin no_program
              [command "echo" "hi"; command "nosuchprogram" ""; command "wc" ""]
              bare_world
              (e := FileNotFoundError (lit "[Errno 2] No such file or directory"))
              eq_refl)
    as (pre & c & post & s & w1 & ks & Hcmds & _ & Hc & Hk & _ & _ & Hlen).
  exists pre, c, post, s, w1, ks; repeat split; assumption.
Defined.

(** X12. Every stream an executor hands back to the runner stands at its
    end, and so does the stream a successful run returns, whose content
    ends in a newline: text written to it later is appended. *)
Theorem runCommand_streams_at_end
        (popen : str -> str -> str -> Py str)
        (cmds : list CmdIR) (w : World) :
  (forall c o,
      In c (calls (runCommand popen cmds w)) ->
      returned c = Ok o ->
      tell o = length (getvalue o)) /\
  (forall r,
      outcome (runCommand popen cmds w) = Ok r ->
      tell r = length (getvalue r) /\
      (exists body, getvalue r = body ++ [nl]) /\
      forall s, getvalue (write r s) = getvalue r ++ s).
Proof.
  split.
  - intros c o; rewrite runCommand_calls; apply loop_calls_at_end.
  - intros r Hr.
    destruct (runCommand_ok _ _ _ Hr) as (r0 & H0 & Hw & Hv).
    assert (Hend0 : tell r0 = length (getvalue r0))
      by now apply (loop_at_end popen (map processCmd cmds) StringIO_new w).
    assert (Hend : tell r = length (getvalue r)).
    { rewrite Hv, Hw; unfold write; cbn [tell].
      rewrite Hend0, length_app; reflexivity. }
    split; [exact Hend|].
    split; [now exists (getvalue r0)|].
    intros s; now apply write_at_end.
Qed.

(** X12 at [echo hi | cat]. *)
Lemma runCommand_streams_at_end_witness :
  let k := runCommand no_program [command "echo" "hi"; command "cat" ""]
                      bare_world in
  outcome k = Ok (mkStringIO (lit "hi" ++ [nl]) 3) /\
  getvalue (write (mkStringIO (lit "hi" ++ [nl]) 3) (lit "more"))
  = (lit "hi" ++ [nl]) ++ lit "more".
Proof.
  split; [reflexivity|].
  apply (runCommand_streams_at_end no_program
           [command "echo" "hi"; command "cat" ""] bare_world).
  reflexivity.
Defined.

(** ** Pipelines of [cat] and [wc] *)

Section PipelineFacts.

Variable popen : str -> str -> str -> Py str.

(** [cat] without argument tokens hands a stream that is not empty and
    stands at its end back as it is. *)
Lemma cat_stage_returns_stream (self : CmdIR) (s : StringIO) (w : World) :
  split (args self) = [] ->
  getvalue s <> [] ->
  tell s = length (getvalue s) ->
  CatExecutor_execute self s w = (Ok s, w).
Proof.
  intros Hargs Hne Hend.
  unfold CatExecutor_execute; rewrite Hargs; cbn [length].
  destruct s as [[|c v] p]; cbn [getvalue tell] in *; [contradiction|].
  unfold bind, ret; rewrite write_new; now subst p.
Qed.

(** [wc file] on a text that ends in a newline. *)
Lemma wc_of_file (self : CmdIR) (istream : StringIO) (w : World) (t : str) :
  length (split (args self)) = 1 ->
  read_text w (args self) = Ok (t ++ [nl]) ->
  exists out,
    WcExecutor_execute self istream w
    = (Ok out, world_after_read (args self) w) /\
    tell out = length (getvalue out) /\
    getvalue out =
      (str_of_nat (count_occ N.eq_dec (t ++ [nl]) nl)
         ++ lit " " ++ str_of_nat (length (split (t ++ [nl])))
         ++ lit " " ++ str_of_nat (length (t ++ [nl])))
        ++ lit " " ++ args self.
Proof.
  intros Hone Hread.
  unfold WcExecutor_execute, WcExecutor_realInput; rewrite Hone.
  unfold WcExecutor_wcFromFile, bind, try_except, open_read, ret.
  rewrite Hread; cbv iota beta.
  rewrite WcExecutor_count_text, write_new, last_last, N.eqb_refl, Nat.add_0_r.
  eexists; split; [reflexivity|]; split; [reflexivity|].
  cbn [getvalue]; now rewrite <- !app_assoc.
Qed.

(** [wc] on a piped text that ends in a newline. *)
Lemma wc_of_stream (self : CmdIR) (t : str) (pos : nat) (w : World) :
  split (args self) = [] ->
  exists out,
    WcExecutor_execute self (mkStringIO (t ++ [nl]) pos) w = (Ok out, w) /\
    tell out = length (getvalue out) /\
    getvalue out =
      (str_of_nat (count_occ N.eq_dec (t ++ [nl]) nl)
         ++ lit " " ++ str_of_nat (length (split (t ++ [nl])))
         ++ lit " " ++ str_of_nat (length (t ++ [nl])))
        ++ lit " " ++ args self.
Proof.
  intros Hargs.
  destruct (@wcFromIStream_lines t [] pos) as [Hlines _]; [intros []|].
  unfold WcExecutor_execute, WcExecutor_realInput; rewrite Hargs.
  cbn [length getvalue].
  destruct (t ++ [nl]) as [|c text] eqn:Et; [now destruct t|].
  unfold bind, ret; rewrite Hlines, WcExecutor_count_text, write_new.
  rewrite <- Et, last_last, N.eqb_refl, Nat.add_0_r.
  eexists; split; [reflexivity|]; split; [reflexivity|].
  cbn [getvalue]; now rewrite <- !app_assoc.
Qed.

End PipelineFacts.

(** X13. A stage [cat] without argument tokens is the identity inside a
    pipeline: when the stages before it succeed with a stream that is not
    empty, the run with the [cat] stage and the run without it end with the
    same outcome and leave the same world. *)
Theorem cat_stage_is_identity
        (popen : str -> str -> str -> Py str)
        (pre post : list CmdIR) (a : str) (w w1 : World)
        (s : StringIO) (ks : list Call) :
  runCommand_loop popen (map processCmd pre) StringIO_new w = mkRun (Ok s) w1 ks ->
  getvalue s <> [] ->
  split a = [] ->
  outcome (runCommand popen (pre ++ mkCmdIR (lit "cat") a :: post) w)
  = outcome (runCommand popen (pre ++ post) w) /\
  after (runCommand popen (pre ++ mkCmdIR (lit "cat") a :: post) w)
  = after (runCommand popen (pre ++ post) w).
Proof.
  intros Hpre Hne Ha.
  assert (Hend : tell s = length (getvalue s)).
  { apply (loop_at_end popen (map processCmd pre) StringIO_new w);
      [reflexivity | now rewrite Hpre]. }
  assert (Hcat : execute popen (processCmd (mkCmdIR (lit "cat") a)) s w1
                 = (Ok s, w1))
    by now apply cat_stage_returns_stream.
  unfold runCommand.
  rewrite !map_app, !loop_app, Hpre; cbv zeta; cbn [outcome after calls map].
  rewrite runCommand_loop_cons, Hcat; cbv zeta; cbn [outcome after calls].
  destruct (outcome (runCommand_loop popen (map processCmd post) s w1));
    split; reflexivity.
Qed.

(** X13 at [echo hi | cat | wc] against [echo hi | wc]. *)
Lemma cat_stage_is_identity_witness :
  outcome (runCommand no_program
             [command "echo" "hi"; command "cat" ""; command "wc" ""] bare_world)
  = outcome (runCommand no_program
               [command "echo" "hi"; command "wc" ""] bare_world).
Proof.
  apply (cat_stage_is_identity no_program
           [command "echo" "hi"] [command "wc" ""] (lit "") bare_world
           (w1 := bare_world) (s := mkStringIO (lit "hi") 2)
           (ks := [mkCall (EchoExecutor (command "echo" "hi")) StringIO_new
                          (Ok (mkStringIO (lit "hi") 2))])).
  - reflexivity.
  - discriminate.
  - reflexivity.
Defined.

(** X14. For a file whose text ends in a newline, [cat file | wc] prints
    the counts that [wc file] prints, with an empty last field in place of
    the file name; both results end in the newline of the runner. *)
Theorem cat_then_wc_counts_file
        (popen : str -> str -> str -> Py str) (f t : str) (w : World) :
  length (split f) = 1 ->
  read_text w f = Ok (t ++ [nl]) ->
  let counts :=
    str_of_nat (count_occ N.eq_dec (t ++ [nl]) nl)
      ++ lit " " ++ str_of_nat (length (split (t ++ [nl])))
      ++ lit " " ++ str_of_nat (length (t ++ [nl])) in
  exists r1 r2,
    outcome (runCommand popen [mkCmdIR (lit "wc") f] w) = Ok r1 /\
    getvalue r1 = counts ++ lit " " ++ f ++ [nl] /\
    outcome (runCommand popen [mkCmdIR (lit "cat") f; mkCmdIR (lit "wc") []] w)
    = Ok r2 /\
    getvalue r2 = counts ++ lit " " ++ [nl].
Proof.
  intros Hone Hread counts.
  destruct (wc_of_file (mkCmdIR (lit "wc") f) StringIO_new w t Hone Hread)
    as (o1 & Hrun1 & Hend1 & Hout1).
  destruct (wc_of_stream (mkCmdIR (lit "wc") []) t (length (t ++ [nl]))
                         (world_after_read f w) eq_refl)
    as (o2 & Hrun2 & Hend2 & Hout2).
  assert (Hcat : CatExecutor_execute (mkCmdIR (lit "cat") f) StringIO_new w
                 = (Ok (mkStringIO (t ++ [nl]) (length (t ++ [nl]))),
                    world_after_read f w)).
  { unfold CatExecutor_execute; cbn [args]; rewrite Hone.
    unfold CatExecutor_catFromFile, bind, try_except, open_read, ret.
    rewrite Hread; now rewrite write_new. }
  destruct (@runCommand_of_loop popen [mkCmdIR (lit "wc") f] w
              (world_after_read f w) o1
              [mkCall (WcExecutor (mkCmdIR (lit "wc") f)) StringIO_new (Ok o1)])
    as (r1 & Hr1 & Hv1); [|exact Hend1|].
  { cbn [map].
    change (processCmd (mkCmdIR (lit "wc") f))
      with (WcExecutor (mkCmdIR (lit "wc") f)).
    rewrite runCommand_loop_cons; cbn [execute]; now rewrite Hrun1. }
  destruct (@runCommand_of_loop popen
              [mkCmdIR (lit "cat") f; mkCmdIR (lit "wc") []] w
              (world_after_read f w) o2
              [mkCall (CatExecutor (mkCmdIR (lit "cat") f)) StringIO_new
                      (Ok (mkStringIO (t ++ [nl]) (length (t ++ [nl]))));
               mkCall (WcExecutor (mkCmdIR (lit "wc") []))
                      (mkStringIO (t ++ [nl]) (length (t ++ [nl]))) (Ok o2)])
    as (r2 & Hr2 & Hv2); [|exact Hend2|].
  { cbn [map].
    change (processCmd (mkCmdIR (lit "cat") f))
      with (CatExecutor (mkCmdIR (lit "cat") f)).
    change (processCmd (mkCmdIR (lit "wc") []))
      with (WcExecutor (mkCmdIR (lit "wc") [])).
    rewrite runCommand_loop_cons; cbn [execute]; rewrite Hcat.
    cbv zeta; rewrite runCommand_loop_cons; cbn [execute]; now rewrite Hrun2. }
  exists r1, r2; rewrite Hr1, Hr2; cbn [outcome].
  repeat split.
  - rewrite Hv1, Hout1; cbn [args]; unfold counts.
    now rewrite <- !app_assoc.
  - rewrite Hv2, Hout2; cbn [args]; unfold counts.
    now rewrite app_nil_r, <- !app_assoc.
Qed.

(** X14 at the file ["a b\ncc\n"]. *)
Lemma cat_then_wc_counts_file_witness :
  let w := world_with_file (lit "f.txt") (lit "a b" ++ [nl] ++ lit "cc" ++ [nl]) in
  exists r1 r2,
    outcome (runCommand no_program [command "wc" "f.txt"] w) = Ok r1 /\
    getvalue r1 = lit "2 3 7 f.txt" ++ [nl] /\
    outcome (runCommand no_program [command "cat" "f.txt"; command "wc" ""] w)
    = Ok r2 /\
    getvalue r2 = lit "2 3 7 " ++ [nl].
Proof.
  destruct (cat_then_wc_counts_file no_program
              (lit "f.txt") (lit "a b" ++ [nl] ++ lit "cc")
              (world_with_file (lit "f.txt")
                               (lit "a b" ++ [nl] ++ lit "cc" ++ [nl]))
              eq_refl eq_refl)
    as (r1 & r2 & H1 & V1 & H2 & V2).
  exists r1, r2; repeat split; assumption.
Defined.

(** ** Pipelines of built-in commands *)

Lemma execute_without_process
      (p1 p2 : str -> str -> str -> Py str)
      (c : CmdExecutor) (s : StringIO) (w : World) :
  (forall cmd, c <> ExternalExecutor cmd) ->
  execute p1 c s w = execute p2 c s w.
Proof.
  intros Hc; destruct c as [cmd|cmd|cmd|cmd|cmd]; try reflexivity.
  now elim (Hc cmd).
Qed.

Lemma loop_without_process
      (p1 p2 : str -> str -> str -> Py str)
      (cs : list CmdExecutor) (s : StringIO) (w : World) :
  (forall c, In c cs -> forall cmd, c <> ExternalExecutor cmd) ->
  runCommand_loop p1 cs s w = runCommand_loop p2 cs s w.
Proof.
  revert s w; induction cs as [|c cs IH]; intros s w Hcs; [reflexivity|].
  rewrite !runCommand_loop_cons.
  rewrite (execute_without_process p1 p2) by (apply Hcs; now left).
  destruct (execute p2 c s w) as [[s'|e] w']; [|reflexivity].
  rewrite IH; [reflexivity|]; intros c' Hin; apply Hcs; now right.
Qed.

(** X15. A pipeline in which every command name is one of [echo], [pwd],
    [cat] and [wc] starts no child process: its run, invocations and world
    included, is the same whatever programs the machine has. *)
Theorem builtin_pipeline_starts_no_process
        (p1 p2 : str -> str -> str -> Py str) (cmds : list CmdIR) (w : World) :
  (forall c, In c cmds ->
             name c = lit "echo" \/ name c = lit "pwd" \/
             name c = lit "cat" \/ name c = lit "wc") ->
  runCommand p1 cmds w = runCommand p2 cmds w.
Proof.
  intros Hnames.
  assert (Hloop : runCommand_loop p1 (map processCmd cmds) StringIO_new w
                  = runCommand_loop p2 (map processCmd cmds) StringIO_new w).
  { apply loop_without_process.
    intros c Hin cmd; apply in_map_iff in Hin as (c0 & <- & Hin0).
    unfold processCmd.
    destruct (Hnames c0 Hin0) as [H|[H|[H|H]]]; rewrite H; discriminate. }
  unfold runCommand; now rewrite Hloop.
Qed.

(** X15 at [echo hi | wc], on a machine without programs and on one whose
    programs copy their input. *)
Lemma builtin_pipeline_starts_no_process_witness :
  runCommand no_program [command "echo" "hi"; command "wc" "x y"] bare_world
  = runCommand copy_program [command "echo" "hi"; command "wc" "x y"] bare_world.
Proof.
  apply (builtin_pipeline_starts_no_process no_program copy_program
           [command "echo" "hi"; command "wc" "x y"] bare_world).
  intros c [<-|[<-|[]]].
  - left; reflexivity.
  - right; right; right; reflexivity.
Defined.
